(** * PTB reader: vocabulary building, encoding and batch windows

    A shallow embedding of [src/data/ptb_reader.py] and the properties of
    its vocabulary builder and batch producer.

    Conventions of the embedding:
    - a decoded text ([f.read().decode("utf-8")]) is the list of its code
      points, [list N]; a token is such a list as well (a character token is
      a string of length one, as in Python);
    - Python exceptions are values of [exception]; a call that can raise
      returns a [result];
    - a [dict] is a [gmap]; Python integers are [Z]; token ids, which index
      a list, are [nat];
    - tensors of the batch producer are lists (rank 1) and lists of rows
      (rank 2) of [Z]; the tensor operations are modelled on the values the
      graph computes when it is run, with the errors the operations raise. *)

From Stdlib Require Import ZArith Lia Ascii String.
From stdpp Require Import gmap strings list sorting fin_maps lexico.

Local Open Scope Z_scope.

(** ** Exceptions *)

Inductive exception : Type :=
  | Exception (msg : string)
  | ValueError
  | KeyError
  | AttributeError
  | NotFoundError
  | InvalidArgumentError
  | OverflowError.

Inductive result (A : Type) : Type :=
  | Ok (a : A)
  | Raise (e : exception).
Arguments Ok {A} a.
Arguments Raise {A} e.

#[global] Instance result_ret : MRet result := fun _ a => Ok a.
#[global] Instance result_bind : MBind result := fun _ _ f r =>
  match r with
  | Ok a => f a
  | Raise e => Raise e
  end.

(** ** Unicode strings *)

Abbreviation unichar := N (only parsing).
Abbreviation unicode := (list N) (only parsing).

(** The code points of an ASCII literal. *)
Fixpoint u (s : string) : unicode :=
  match s with
  | EmptyString => []
  | String c s' => Ascii.N_of_ascii c :: u s'
  end.

(** The line feed, ["\n"]. *)
Definition newline : unicode := [10%N].

(** [unicode.isspace] on one character (the table of CPython 2.7). *)
Definition isspace (c : unichar) : bool :=
  ((9 <=? c) && (c <=? 13) || (28 <=? c) && (c <=? 32) || (c =? 133)
   || (c =? 160) || (c =? 5760) || (c =? 6158)
   || (8192 <=? c) && (c <=? 8202) || (c =? 8232) || (c =? 8233)
   || (c =? 8239) || (c =? 8287) || (c =? 12288))%N.

(** [s.startswith(old)] *)
Fixpoint startswith (old s : unicode) : bool :=
  match old, s with
  | [], _ => true
  | _ :: _, [] => false
  | a :: old', c :: s' => (a =? c)%N && startswith old' s'
  end.

(** [s.replace(old, new)] for a non-empty [old]: scan from the left; at a
    match emit [new] and jump over the match ([skip] counts the characters
    of the match still to be jumped over), otherwise copy one character. *)
Fixpoint replace_from (old new : unicode) (skip : nat) (s : unicode) : unicode :=
  match s with
  | [] => []
  | c :: s' =>
      match skip with
      | S k => replace_from old new k s'
      | O =>
          if startswith old s
          then new ++ replace_from old new (length old - 1) s'
          else c :: replace_from old new 0 s'
      end
  end.

(** [s.replace(old, new)]; with an empty [old], Python puts [new] before
    every character and at the end. *)
Definition replace (old new s : unicode) : unicode :=
  match old with
  | [] => new ++ flat_map (fun c => c :: new) s
  | _ :: _ => replace_from old new 0 s
  end.

(** [s.split()]: the maximal runs of non-whitespace characters. [cur] is
    the run being read. *)
Fixpoint split_from (cur s : unicode) : list unicode :=
  match s with
  | [] => match cur with [] => [] | _ :: _ => [cur] end
  | c :: s' =>
      if isspace c
      then match cur with
           | [] => split_from [] s'
           | _ :: _ => cur :: split_from [] s'
           end
      else split_from (cur ++ [c]) s'
  end.

Definition split (s : unicode) : list unicode := split_from [] s.

(** Iterating over a string yields its characters as strings of length 1. *)
Definition iter_str (s : unicode) : list unicode := map (fun c => [c]) s.

(** ** Files *)

(** The files that can be read: a path gives the decoded contents. *)
Definition filesystem : Type := string -> option unicode.

(** [tf.gfile.GFile(filename, "r").read().decode("utf-8")] *)
Definition GFile_read (fs : filesystem) (filename : string) : result unicode :=
  match fs filename with
  | Some text => Ok text
  | None => Raise NotFoundError
  end.

(** What [_read_words] makes of the decoded text. *)
Definition words_of_text (text : unicode) : list unicode :=
  split (replace newline (u "<eos>") text).

(** What [_read_chars] makes of the decoded text. *)
Definition chars_of_text (text : unicode) : unicode :=
  replace (u "<eos>") (u "+") (replace newline (u "<eos>") text).

Definition _read_words (fs : filesystem) (filename : string) : result (list unicode) :=
  text ← GFile_read fs filename;
  mret (words_of_text text).

Definition _read_chars (fs : filesystem) (filename : string) : result unicode :=
  text ← GFile_read fs filename;
  mret (chars_of_text text).

(** ** Vocabulary builder *)

(** [collections.Counter(data)]: one pass that adds one to the count of
    each element. *)
Definition Counter (data : list unicode) : gmap unicode nat :=
  foldl (fun c elem => <[elem := (default 0 (c !! elem) + 1)%nat]> c) ∅ data.

(** [counter.items()]. The order in which a dict yields its items is not
    specified; [map_to_list] is one such order, and the results below are
    stated for every order. *)
Definition items (counter : gmap unicode nat) : list (unicode * nat) :=
  map_to_list counter.

(** [a < b] on unicode strings: lexicographic on code points. *)
Fixpoint unicode_lt (a b : unicode) : bool :=
  match a, b with
  | _, [] => false
  | [], _ :: _ => true
  | x :: a', y :: b' => (x <? y)%N || (x =? y)%N && unicode_lt a' b'
  end.

(** [a < b] on the tuples [(int, unicode)]. *)
Definition tuple_lt (a b : Z * unicode) : bool :=
  (a.1 <? b.1) || (a.1 =? b.1) && unicode_lt a.2 b.2.

(** [lambda x: (-x[1], x[0])] *)
Definition sort_key (x : unicode * nat) : Z * unicode := (- Z.of_nat x.2, x.1).

(** [sorted(l, key=key)]: a stable sort that compares keys with [<]. The
    head of the list goes in front of the first element of the sorted tail
    whose key is not smaller than its own. *)
Fixpoint sorted_insert {A K : Type} (key : A -> K) (lt : K -> K -> bool)
    (x : A) (l : list A) : list A :=
  match l with
  | [] => [x]
  | y :: l' =>
      if lt (key y) (key x) then y :: sorted_insert key lt x l' else x :: y :: l'
  end.

Fixpoint sorted {A K : Type} (key : A -> K) (lt : K -> K -> bool)
    (l : list A) : list A :=
  match l with
  | [] => []
  | x :: l' => sorted_insert key lt x (sorted key lt l')
  end.

(** [a, b = list(zip( * pairs))]: the two columns of a list of pairs; with
    no pair there is nothing to unpack. *)
Definition unzip_pairs {A B : Type} (pairs : list (A * B)) : result (list A * list B) :=
  match pairs with
  | [] => Raise ValueError
  | _ :: _ => Ok (map fst pairs, map snd pairs)
  end.

(** [dict(pairs)]: the pairs are inserted from left to right. *)
Definition dict (pairs : list (unicode * nat)) : gmap unicode nat :=
  foldl (fun d kv => <[kv.1 := kv.2]> d) ∅ pairs.

(** [range(n)] *)
Definition range (n : nat) : list nat := seq 0 n.

(** The body shared by [_build_vocab] and [_build_char] after the items of
    the counter have been listed. *)
Definition vocab_of_items (counter_items : list (unicode * nat)) : result (gmap unicode nat) :=
  let count_pairs := sorted sort_key tuple_lt counter_items in
  '(words, _) ← unzip_pairs count_pairs;
  mret (dict (zip words (range (length words)))).

Definition vocab_of_tokens (data : list unicode) : result (gmap unicode nat) :=
  vocab_of_items (items (Counter data)).

Definition _build_vocab (fs : filesystem) (filename : string) : result (gmap unicode nat) :=
  data ← _read_words fs filename;
  vocab_of_tokens data.

Definition _build_char (fs : filesystem) (filename : string) : result (gmap unicode nat) :=
  data ← _read_chars fs filename;
  vocab_of_tokens (iter_str data).

(** ** Encoding *)

(** [word in word_to_id] *)
Definition dict_contains (d : gmap unicode nat) (k : unicode) : bool :=
  bool_decide (is_Some (d !! k)).

(** [word_to_id[word]] *)
Definition dict_getitem (d : gmap unicode nat) (k : unicode) : result nat :=
  match d !! k with
  | Some v => Ok v
  | None => Raise KeyError
  end.

(** [[word_to_id[word] for word in data if word in word_to_id]] *)
Fixpoint encode_tokens (word_to_id : gmap unicode nat) (data : list unicode)
    : result (list nat) :=
  match data with
  | [] => mret []
  | word :: data' =>
      if dict_contains word_to_id word
      then id ← dict_getitem word_to_id word;
           ids ← encode_tokens word_to_id data';
           mret (id :: ids)
      else encode_tokens word_to_id data'
  end.

Definition _file_to_word_ids (fs : filesystem) (filename : string)
    (word_to_id : gmap unicode nat) : result (list nat) :=
  data ← _read_words fs filename;
  encode_tokens word_to_id data.

Definition _file_to_char_ids (fs : filesystem) (filename : string)
    (char_to_id : gmap unicode nat) : result (list nat) :=
  data ← _read_chars fs filename;
  encode_tokens char_to_id (iter_str data).

(** ** Loading the three splits *)

Definition str_endswith_slash (s : string) : bool :=
  match String.rev s with
  | String c _ => Ascii.eqb c "/"%char
  | EmptyString => false
  end.

Definition str_startswith_slash (s : string) : bool :=
  match s with
  | String c _ => Ascii.eqb c "/"%char
  | EmptyString => false
  end.

(** [os.path.join(a, b)] (posixpath); [a] is [None] when the caller left
    [data_path] at its default. *)
Definition os_path_join (a : option string) (b : string) : result string :=
  match a with
  | None => Raise AttributeError
  | Some path =>
      if str_startswith_slash b then Ok b
      else if String.eqb path EmptyString || str_endswith_slash path then Ok (path +:+ b)
      else Ok (path +:+ "/" +:+ b)
  end.

Definition ptb_raw_data (fs : filesystem) (data_path : option string) (level : string)
    : result (list nat * list nat * list nat * nat) :=
  if negb (String.eqb level "word") && negb (String.eqb level "char")
  then Raise (Exception "Unknown level")
  else
    let '(encode, build) :=
      if String.eqb level "word"
      then (_file_to_word_ids, _build_vocab)
      else (_file_to_char_ids, _build_char) in
    train_path ← os_path_join data_path "ptb.train.txt";
    valid_path ← os_path_join data_path "ptb.valid.txt";
    test_path ← os_path_join data_path "ptb.test.txt";
    dictionary ← build fs train_path;
    train_data ← encode fs train_path dictionary;
    valid_data ← encode fs valid_path dictionary;
    test_data ← encode fs test_path dictionary;
    let vocabulary := size dictionary in
    mret (train_data, valid_data, test_data, vocabulary).

(** ** Tensors *)

(** A rank-2 int32 tensor with its shape. *)
Record tensor2 : Type := Tensor2 {
  dim0 : Z;
  dim1 : Z;
  rows : list (list Z)
}.

(** The value that a 64-bit integer has as an int32: the low 32 bits,
    signed. *)
Definition int32 (z : Z) : Z := (z + 2147483648) mod 4294967296 - 2147483648.

(** [tf.convert_to_tensor(values, dtype=tf.int32)] on a list of Python
    integers: an integer that does not fit 64 bits cannot be converted, the
    others are cut to their low 32 bits. *)
Definition convert_to_tensor_int32 (values : list Z) : result (list Z) :=
  if forallb (fun z => (-9223372036854775808 <=? z) && (z <? 9223372036854775808)) values
  then Ok (map int32 values)
  else Raise OverflowError.

(** [tf.size(t)] *)
Definition tf_size (t : list Z) : Z := Z.of_nat (length t).

(** [x // y] on integer tensors: the floor of the quotient; a zero divisor
    is an error. *)
Definition floordiv (x y : Z) : result Z :=
  if y =? 0 then Raise InvalidArgumentError else Ok (x / y).

(** The part of one axis of length [dim] that [tf.slice] takes from
    [begin] and [size]: a size of -1 stands for all that remains, and the
    part has to lie within the axis. *)
Definition slice_extent (dim begin size : Z) : result (nat * nat) :=
  let size' := if size =? -1 then dim - begin else size in
  if (0 <=? begin) && (0 <=? size') && (begin + size' <=? dim)
  then Ok (Z.to_nat begin, Z.to_nat size')
  else Raise InvalidArgumentError.

(** [tf.slice(t, [begin], [size])] on a rank-1 tensor. *)
Definition tf_slice1 (t : list Z) (begin size : Z) : result (list Z) :=
  '(b, n) ← slice_extent (tf_size t) begin size;
  mret (take n (drop b t)).

(** The rows of a row-major reshape: each row takes the next [c] elements. *)
Fixpoint reshape_rows (r c : nat) (t : list Z) : list (list Z) :=
  match r with
  | O => []
  | S r' => take c t :: reshape_rows r' c (drop c t)
  end.

(** [tf.reshape(t, [r, c])]. The shape has to hold exactly the elements of
    [t]. (A dimension of -1 asks for it to be inferred; no call of
    [ptb_producer] reaches a shape where that succeeds, so it is an error
    here like any other negative dimension.) *)
Definition tf_reshape (t : list Z) (r c : Z) : result tensor2 :=
  if (0 <=? r) && (0 <=? c) && (r * c =? tf_size t)
  then Ok (Tensor2 r c (reshape_rows (Z.to_nat r) (Z.to_nat c) t))
  else Raise InvalidArgumentError.

(** [tf.slice(t, [begin0, begin1], [size0, size1])] on a rank-2 tensor. *)
Definition tf_slice2 (t : tensor2) (begin size : Z * Z) : result tensor2 :=
  '(b0, n0) ← slice_extent (dim0 t) begin.1 size.1;
  '(b1, n1) ← slice_extent (dim1 t) begin.2 size.2;
  mret (Tensor2 (Z.of_nat n0) (Z.of_nat n1)
          (map (fun row => take n1 (drop b1 row)) (take n0 (drop b0 (rows t))))).

(** The elements [0, 1, ..., limit - 1]. *)
Definition range_values (limit : Z) : list Z :=
  map Z.of_nat (seq 0 (Z.to_nat limit)).

(** [tf.range(limit)]: a negative limit is refused ("Requires start <=
    limit when delta > 0"). *)
Definition tf_range (limit : Z) : result (list Z) :=
  if limit <? 0 then Raise ValueError else Ok (range_values limit).

(** [tf.train.range_input_producer(limit, shuffle=False).dequeue()]: the
    queue is fed the elements of [tf.range(limit)] in order, epoch after
    epoch; [k] counts the elements dequeued before. With an empty range no
    element is ever enqueued and there is nothing to dequeue. *)
Definition range_input_producer_dequeue (limit : Z) (k : nat) : result (option Z) :=
  r ← tf_range limit;
  match r with
  | [] => mret None
  | _ :: _ => mret (r !! (k mod length r)%nat)
  end.

(** ** Batch producer *)

(** What [ptb_producer] computes before it dequeues a window index. *)
Record batches : Type := Batches {
  batch_size : Z;
  num_steps : Z;
  batch_len : Z;
  data : tensor2;
  epoch_size : Z
}.

Definition ptb_batches (raw_data : list Z) (batch_size num_steps : Z) : result batches :=
  raw_data ← convert_to_tensor_int32 raw_data;
  let data_len := tf_size raw_data in
  batch_len ← floordiv data_len batch_size;
  rd ← tf_slice1 raw_data 0 (batch_size * batch_len);
  data ← tf_reshape rd batch_size batch_len;
  epoch_size ← floordiv (batch_len - 1) num_steps;
  mret (Batches batch_size num_steps batch_len data epoch_size).

(** The pair [(x, y)] for the dequeued index [i]. *)
Definition ptb_window (b : batches) (i : Z) : result (tensor2 * tensor2) :=
  x ← tf_slice2 (data b) (0, i * num_steps b) (batch_size b, num_steps b);
  y ← tf_slice2 (data b) (0, i * num_steps b + 1) (batch_size b, num_steps b);
  mret (x, y).

(** The window indices of one epoch, in the order they are dequeued. *)
Definition epoch_indices (b : batches) : list Z := range_values (epoch_size b).

(** [ptb_producer(raw_data, batch_size, num_steps)], observed at the
    [k]-th evaluation of the returned pair: [Ok None] when the call
    returns its pair but no window index can be dequeued. *)
Definition ptb_producer (raw_data : list Z) (batch_size num_steps : Z) (k : nat)
    : result (option (tensor2 * tensor2)) :=
  b ← ptb_batches raw_data batch_size num_steps;
  i ← range_input_producer_dequeue (epoch_size b) k;
  match i with
  | None => mret None
  | Some i => xy ← ptb_window b i; mret (Some xy)
  end.

(** ** Small facts used to state the properties *)

(** Number of occurrences of [w] in [data]. *)
Definition count (w : unicode) (data : list unicode) : nat :=
  length (filter (fun x => x = w) data).

(** [old] occurs in [s] as a substring. *)
Fixpoint occurs (old s : unicode) : bool :=
  startswith old s ||
  match s with
  | [] => false
  | _ :: s' => occurs old s'
  end.

(** The integers that an int32 holds. *)
Definition is_int32 (z : Z) : Prop := -2147483648 <= z < 2147483648.

(** [t[r, c]], when the cell exists. *)
Definition cell (t : tensor2) (r c : nat) : option Z :=
  rows t !! r ≫= fun row => row !! c.

(** [t[:, c:c+1]]: the column [c] as a list of rows of one element. *)
Definition column (t : tensor2) (c : nat) : list (list Z) :=
  map (fun row => take 1 (drop c row)) (rows t).

(** The rows of [t] without their first element. *)
Definition shift_left (t : tensor2) : list (list Z) :=
  map (drop 1) (rows t).

(** The order in which [sorted] leaves two items of the counter: the key
    of the second is not smaller than the key of the first. *)
Definition item_le (a b : unicode * nat) : Prop :=
  tuple_lt (sort_key b) (sort_key a) = false.

(** The key of a token of [data]: its negated count and the token. *)
Definition token_key (data : list unicode) (w : unicode) : Z * unicode :=
  sort_key (w, count w data).

(** A file system with exactly one file. *)
Definition single_file (filename : string) (text : unicode) : filesystem :=
  fun p => if String.eqb p filename then Some text else None.

(** ** Further notions used to state properties *)

(** [" ".join(tokens)] *)
Fixpoint join_space (tokens : list unicode) : unicode :=
  match tokens with
  | [] => []
  | w :: rest =>
      match rest with
      | [] => w
      | _ :: _ => w ++ 32%N :: join_space rest
      end
  end.

(** A token as [split] yields them: not empty and without whitespace. *)
Definition is_token (w : unicode) : Prop :=
  w <> [] /\ Forall (fun c => isspace c = false) w.

(** The results of [f] on the elements of [l], up to the first error. *)
Fixpoint mapM {A B : Type} (f : A -> result B) (l : list A) : result (list B) :=
  match l with
  | [] => mret []
  | a :: l' => b ← f a; bs ← mapM f l'; mret (b :: bs)
  end.

(** The pairs [(x, y)] of one epoch, in the order they are dequeued. *)
Definition ptb_epoch (b : batches) : result (list (tensor2 * tensor2)) :=
  mapM (ptb_window b) (epoch_indices b).

(** Row [r] of a rank-2 tensor (empty when there is no such row). *)
Definition row_of (t : tensor2) (r : nat) : list Z := default [] (rows t !! r).

(** The tokens that [ptb_raw_data] counts and encodes at a level: the
    words of the text, or its characters. *)
Definition tokens_of_level (level : string) (text : unicode) : list unicode :=
  if String.eqb level "word" then words_of_text text
  else iter_str (chars_of_text text).

(** ** A vocabulary read from a file of lines "token,rank" *)

(** The exceptions of [_build_vocab_existing]: those above and the two
    that only it can raise. *)
Inductive py_exception : Type :=
  | Builtin (e : exception)
  | IOError
  | IndexError
  | UnicodeDecodeError.

(** [f.readlines()]: the lines of the file, each with its line feed (the
    last one may have none). [cur] is the line being read. *)
Fixpoint readlines_from (cur s : unicode) : list unicode :=
  match s with
  | [] => match cur with [] => [] | _ :: _ => [cur] end
  | c :: s' =>
      if (c =? 10)%N then (cur ++ [c]) :: readlines_from [] s'
      else readlines_from (cur ++ [c]) s'
  end.

Definition readlines (s : unicode) : list unicode := readlines_from [] s.

(** [s.lstrip('\n')] *)
Fixpoint lstrip_newline (s : unicode) : unicode :=
  match s with
  | [] => []
  | c :: s' => if (c =? 10)%N then lstrip_newline s' else s
  end.

(** [s.strip('\n')] *)
Definition strip_newline (s : unicode) : unicode :=
  reverse (lstrip_newline (reverse (lstrip_newline s))).

(** [s.split(',')]: the fields between the commas, empty ones included. *)
Fixpoint split_comma_from (cur s : unicode) : list unicode :=
  match s with
  | [] => [cur]
  | c :: s' =>
      if (c =? 44)%N then cur :: split_comma_from [] s'
      else split_comma_from (cur ++ [c]) s'
  end.

Definition split_comma (s : unicode) : list unicode := split_comma_from [] s.

(** What Python 2 does with a byte string that meets a unicode string:
    the bytes are decoded as ASCII, which a byte above 127 makes fail. *)
Definition ascii_decode (s : unicode) : py_exception + unicode :=
  if forallb (fun c => (c <? 128)%N) s then inr s else inl UnicodeDecodeError.

(** [ll.strip('\n').split(',')] on a line read from the file. The module
    has [unicode_literals], so the line, a byte string, is decoded where
    it is stripped. *)
Definition line_fields (ll : unicode) : py_exception + list unicode :=
  match ascii_decode ll with
  | inl e => inl e
  | inr s => inr (split_comma (strip_newline s))
  end.

(** [[ll.strip('\n').split(',') for ll in lines]]: the lines from first to
    last, up to the first one that raises. *)
Fixpoint lines_fields (lines : list unicode) : py_exception + list (list unicode) :=
  match lines with
  | [] => inr []
  | ll :: lines' =>
      match line_fields ll with
      | inl e => inl e
      | inr x =>
          match lines_fields lines' with
          | inl e => inl e
          | inr xs => inr (x :: xs)
          end
      end
  end.

(** [dict(pairs)] with integer values. *)
Definition dict_int (pairs : list (unicode * Z)) : gmap unicode Z :=
  foldl (fun d kv => <[kv.1 := kv.2]> d) ∅ pairs.

Section build_vocab_existing.

(** [int(s)] on a string read from the file, [None] when it raises
    [ValueError]. Which strings [int] accepts is left open. *)
Variable py_int : unicode -> option Z.

(** [lambda x: (x[0], int(x[1]) - 1)] *)
Definition vocab_entry (x : list unicode) : py_exception + (unicode * Z) :=
  match x with
  | x0 :: x1 :: _ =>
      match py_int x1 with
      | Some rank => inr (x0, rank - 1)
      | None => inl (Builtin ValueError)
      end
  | _ => inl IndexError
  end.

(** [map(f, wlist)] with the function above: the entries from left to
    right, up to the first one that raises. *)
Fixpoint vocab_entries (wlist : list (list unicode))
    : py_exception + list (unicode * Z) :=
  match wlist with
  | [] => inr []
  | x :: wlist' =>
      match vocab_entry x with
      | inl e => inl e
      | inr kv =>
          match vocab_entries wlist' with
          | inl e => inl e
          | inr kvs => inr (kv :: kvs)
          end
      end
  end.

(** [files] gives the contents that [open(filename, 'r')] reads. *)
Definition _build_vocab_existing (files : string -> option unicode)
    (filename : string) : py_exception + gmap unicode Z :=
  match files filename with
  | None => inl IOError
  | Some text =>
      match lines_fields (readlines text) with
      | inl e => inl e
      | inr wlist =>
          match vocab_entries wlist with
          | inl e => inl e
          | inr wlist' => inr (dict_int wlist')
          end
      end
  end.

End build_vocab_existing.

(** A line of a vocabulary file. *)
Definition vocab_line (token rank : unicode) : unicode :=
  token ++ [44%N] ++ rank ++ [10%N].

(** A field of a line of a vocabulary file: ASCII characters other than
    the comma, the line feed and the carriage return. *)
Definition is_field (s : unicode) : Prop :=
  Forall (fun c => (c < 128)%N /\ c <> 44%N /\ c <> 10%N /\ c <> 13%N) s.

(** An entry of a vocabulary file: a token and a rank that are fields, and
    the number that [int] reads in the rank. *)
Definition well_formed_entry (py_int : unicode -> option Z)
    (e : unicode * unicode * Z) : Prop :=
  is_field e.1.1 /\ is_field e.1.2 /\ py_int e.1.2 = Some e.2.

(** * Properties *)

(** ** The error monad *)

Lemma bind_Ok {A B : Type} (r : result A) (f : A -> result B) (b : B) :
  r ≫= f = Ok b -> exists a, r = Ok a /\ f a = Ok b.
Proof. destruct r as [a|e]; [eauto | discriminate]. Qed.

Ltac inv_bind H :=
  repeat match type of H with
  | _ ≫= _ = Ok _ =>
      let a := fresh "a" in
      let Ha := fresh "Ha" in
      apply bind_Ok in H as (a & Ha & H)
  end.

(** ** Tensor operations *)

Section tensor_ops.

Lemma floordiv_Ok x y q : floordiv x y = Ok q -> y <> 0 /\ q = x / y.
Proof.
  unfold floordiv. destruct (Z.eqb_spec y 0); [discriminate|].
  intros [= <-]. done.
Qed.

Lemma floordiv_nonzero x y : y <> 0 -> floordiv x y = Ok (x / y).
Proof. unfold floordiv. destruct (Z.eqb_spec y 0); done. Qed.

Lemma slice_extent_Ok dim begin size :
  0 <= begin -> 0 <= size -> begin + size <= dim ->
  slice_extent dim begin size = Ok (Z.to_nat begin, Z.to_nat size).
Proof.
  intros Hb Hs Hd. unfold slice_extent.
  destruct (Z.eqb_spec size (-1)); [lia|].
  destruct (Z.leb_spec 0 begin); [|lia].
  destruct (Z.leb_spec 0 size); [|lia].
  destruct (Z.leb_spec (begin + size) dim); [done|lia].
Qed.

Lemma length_reshape_rows r c t : length (reshape_rows r c t) = r.
Proof. revert t. induction r as [|r IH]; intros t; simpl; [done|]. by rewrite IH. Qed.

Lemma lookup_reshape_rows r c t (k : nat) :
  (k < r)%nat -> reshape_rows r c t !! k = Some (take c (drop (k * c) t)).
Proof.
  revert t k. induction r as [|r IH]; intros t k Hk; [lia|].
  destruct k as [|k]; simpl.
  - by rewrite drop_0.
  - rewrite IH by lia. by rewrite drop_drop.
Qed.


Lemma Forall_length_reshape_rows r c t :
  length t = (r * c)%nat ->
  Forall (fun row => length row = c) (reshape_rows r c t).
Proof.
  revert t. induction r as [|r IH]; intros t Hlen; simpl in *; constructor.
  - rewrite length_take. lia.
  - apply IH. rewrite length_drop. lia.
Qed.






Lemma int32_id z : is_int32 z -> int32 z = z.
Proof.
  unfold is_int32, int32. intros Hz.
  rewrite Z.mod_small by lia. lia.
Qed.

Lemma convert_to_tensor_int32_Ok values t :
  convert_to_tensor_int32 values = Ok t -> t = map int32 values.
Proof.
  unfold convert_to_tensor_int32. by destruct (forallb _ values); intros [= <-].
Qed.

Lemma map_int32_id values : Forall is_int32 values -> map int32 values = values.
Proof.
  intros Hv. rewrite <- (list_fmap_id values) at 2.
  apply Forall_fmap_ext. eapply Forall_impl; [exact Hv|].
  intros z Hz. by apply int32_id.
Qed.


End tensor_ops.

(** ** The batch grid *)

Section batch_grid.

Variables (raw_data : list Z) (bs ns : Z).

(** The grid that [ptb_batches] builds, from the converted sequence, for
    a positive batch size and a non-zero number of steps. *)
Lemma ptb_batches_Ok t :
  convert_to_tensor_int32 raw_data = Ok t ->
  0 < bs -> ns <> 0 ->
  ptb_batches raw_data bs ns =
    Ok (Batches bs ns (tf_size raw_data / bs)
          (Tensor2 bs (tf_size raw_data / bs)
             (reshape_rows (Z.to_nat bs) (Z.to_nat (tf_size raw_data / bs))
                (take (Z.to_nat (bs * (tf_size raw_data / bs))) t)))
          ((tf_size raw_data / bs - 1) / ns)).
Proof.
  intros Ht Hbs Hns. unfold ptb_batches. rewrite Ht. simpl.
  apply convert_to_tensor_int32_Ok in Ht.
  assert (Hlen : length t = length raw_data) by (by rewrite Ht, length_map).
  unfold tf_size. rewrite Hlen.
  set (L := Z.of_nat (length raw_data)).
  assert (0 <= L / bs) by (apply Z.div_pos; lia).
  assert (bs * (L / bs) <= L) by (apply Z.mul_div_le; lia).
  rewrite floordiv_nonzero by lia. simpl.
  unfold tf_slice1. rewrite slice_extent_Ok; unfold tf_size; rewrite ?Hlen; fold L; try lia.
  simpl. unfold tf_reshape, tf_size.
  rewrite length_take, drop_0, Hlen.
  destruct (Z.leb_spec 0 bs); [|lia].
  destruct (Z.leb_spec 0 (L / bs)); [|lia].
  destruct (Z.eqb_spec (bs * (L / bs))
              (Z.of_nat (Z.to_nat (bs * (L / bs)) `min` length raw_data))); [|lia].
  simpl. rewrite floordiv_nonzero by done. done.
Qed.

(** What a successful [ptb_batches] tells about its arguments and result. *)
Lemma ptb_batches_inv b :
  ptb_batches raw_data bs ns = Ok b ->
  0 < bs /\ ns <> 0 /\
  b = Batches bs ns (tf_size raw_data / bs)
        (Tensor2 bs (tf_size raw_data / bs)
           (reshape_rows (Z.to_nat bs) (Z.to_nat (tf_size raw_data / bs))
              (take (Z.to_nat (bs * (tf_size raw_data / bs))) (map int32 raw_data))))
        ((tf_size raw_data / bs - 1) / ns).
Proof.
  intros H.
  destruct (convert_to_tensor_int32 raw_data) as [t|e] eqn:Ht;
    [|by unfold ptb_batches in H; rewrite Ht in H].
  assert (0 < bs /\ ns <> 0) as [Hbs Hns].
  { unfold ptb_batches in H. rewrite Ht in H. simpl in H. inv_bind H.
    apply floordiv_Ok in Ha as [Hbs ->].
    apply floordiv_Ok in Ha2 as [Hns _].
    unfold tf_reshape in Ha1.
    destruct (Z.leb_spec 0 bs); [|discriminate]. lia. }
  rewrite (ptb_batches_Ok t) in H by done. injection H as <-.
  apply convert_to_tensor_int32_Ok in Ht as ->. done.
Qed.

End batch_grid.

(** ** Windows *)

Section windows.

Lemma window_in_bounds batch_len ns i :
  0 < ns -> 0 <= i < (batch_len - 1) / ns -> i * ns + ns + 1 <= batch_len.
Proof.
  intros Hns [Hi0 Hi].
  assert (ns * ((batch_len - 1) / ns) <= batch_len - 1)
    by (apply Z.mul_div_le; lia).
  nia.
Qed.

(** The two slices of a window that lies within the grid. *)
Lemma ptb_window_Ok bs ns batch_len grid e i :
  0 <= bs -> 0 < ns -> 0 <= i -> i * ns + ns + 1 <= batch_len ->
  length grid = Z.to_nat bs ->
  ptb_window (Batches bs ns batch_len (Tensor2 bs batch_len grid) e) i =
    Ok (Tensor2 bs ns
          (map (fun row => take (Z.to_nat ns) (drop (Z.to_nat (i * ns)) row)) grid),
        Tensor2 bs ns
          (map (fun row => take (Z.to_nat ns) (drop (Z.to_nat (i * ns + 1)) row)) grid)).
Proof.
  intros Hbs Hns Hi Hin Hlen. unfold ptb_window, tf_slice2. simpl.
  rewrite !slice_extent_Ok by nia. simpl.
  rewrite ?slice_extent_Ok by nia. simpl.
  change (Z.to_nat 0) with 0%nat.
  rewrite !Z2Nat.id by lia.
  rewrite drop_0, take_ge by lia. done.
Qed.

Lemma take_drop_shift {A : Type} (l : list A) (n k : nat) (v : A) :
  (0 < n)%nat -> l !! (k + n)%nat = Some v ->
  take n (drop (S k) l) = drop 1 (take n (drop k l)) ++ [v].
Proof.
  intros Hn Hv. rewrite <- lookup_drop in Hv.
  replace (drop (S k) l) with (drop 1 (drop k l))
    by (rewrite drop_drop; f_equal; lia).
  destruct n as [|m]; [lia|].
  destruct (drop k l) as [|a l']; [done|]. simpl in *.
  rewrite drop_0. by apply take_S_r.
Qed.

End windows.

(** ** The batch producer *)

Section producer.

Lemma cell_reshape_rows bs bl (t : list Z) (r c : nat) :
  cell (Tensor2 (Z.of_nat bs) (Z.of_nat bl) (reshape_rows bs bl t)) r c =
    if decide (r < bs /\ c < bl)%nat then t !! (r * bl + c)%nat else None.
Proof.
  unfold cell. simpl. case_decide as Hd.
  - destruct Hd as [Hr Hc]. rewrite lookup_reshape_rows by done. simpl.
    rewrite lookup_take_lt by done. by rewrite lookup_drop.
  - destruct (decide (r < bs)%nat) as [Hr|Hr].
    + rewrite lookup_reshape_rows by done. simpl.
      apply lookup_ge_None. rewrite length_take. lia.
    + rewrite (proj2 (lookup_ge_None _ _)); [done|].
      rewrite length_reshape_rows. lia.
Qed.

Lemma cell_slice_rows (grid : list (list Z)) d0 d1 d0' d1' (n k r j : nat) :
  cell (Tensor2 d0 d1 (map (fun row => take n (drop k row)) grid)) r j =
    if decide (j < n)%nat then cell (Tensor2 d0' d1' grid) r (k + j) else None.
Proof.
  unfold cell. simpl. rewrite list_lookup_fmap.
  destruct (grid !! r) as [row|]; simpl; [|by case_decide].
  case_decide.
  - rewrite lookup_take_lt by done. by rewrite lookup_drop.
  - apply lookup_ge_None. rewrite length_take. lia.
Qed.





End producer.

Section window_shift.

Lemma row_shift (row : list Z) (n k : nat) :
  (0 < n)%nat -> (k + n < length row)%nat ->
  take n (drop (S k) row) =
    drop 1 (take n (drop k row)) ++ take 1 (drop (k + n) row) /\
  length (take 1 (drop (k + n) row)) = 1%nat.
Proof.
  intros Hn Hlen.
  destruct (lookup_lt_is_Some_2 row (k + n)%nat Hlen) as [v Hv].
  rewrite (drop_S row v (k + n) Hv). simpl. rewrite take_0.
  split; [|done]. by apply take_drop_shift.
Qed.

Lemma rows_shift (grid : list (list Z)) (bl n k : nat) :
  (0 < n)%nat -> (k + n < bl)%nat ->
  Forall (fun row => length row = bl) grid ->
  map (fun row => take n (drop (S k) row)) grid =
    zip_with app (map (drop 1) (map (fun row => take n (drop k row)) grid))
      (map (fun row => take 1 (drop (k + n) row)) grid) /\
  Forall (fun col => length col = 1%nat)
    (map (fun row => take 1 (drop (k + n) row)) grid).
Proof.
  intros Hn Hk Hrows. split.
  - rewrite !zip_with_fmap_l, zip_with_fmap_r, zip_with_diag.
    apply Forall_fmap_ext. eapply Forall_impl; [exact Hrows|].
    intros row Hrow. simpl in *. apply row_shift; lia.
  - apply Forall_fmap. eapply Forall_impl; [exact Hrows|].
    intros row Hrow. simpl in *. apply row_shift; lia.
Qed.

End window_shift.

(** C5. The encoded sequence 0..9 with batch_size 2 and num_steps 3 gives
    batch_len 5, epoch_size 1, the grid [[0,1,2,3,4],[5,6,7,8,9]], and
    window 0 (the first pair dequeued) has input [[0,1,2],[5,6,7]] and
    target [[1,2,3],[6,7,8]]. *)
Theorem ptb_producer_example :
  ptb_batches [0; 1; 2; 3; 4; 5; 6; 7; 8; 9] 2 3 =
    Ok (Batches 2 3 5 (Tensor2 2 5 [[0; 1; 2; 3; 4]; [5; 6; 7; 8; 9]]) 1) /\
  epoch_indices (Batches 2 3 5 (Tensor2 2 5 [[0; 1; 2; 3; 4]; [5; 6; 7; 8; 9]]) 1) = [0] /\
  ptb_producer [0; 1; 2; 3; 4; 5; 6; 7; 8; 9] 2 3 0 =
    Ok (Some (Tensor2 2 3 [[0; 1; 2]; [5; 6; 7]],
              Tensor2 2 3 [[1; 2; 3]; [6; 7; 8]])).
Proof. repeat split; reflexivity. Qed.

(** C1, evaluated on the code. With the sequence [0,1,2], batch_size 2 and
    num_steps 3 the epoch size is 0; the producer raises nothing: it
    returns its pair, and no window is ever dequeued. *)
Theorem ptb_producer_epoch_size_zero_not_raised :
  ptb_batches [0; 1; 2] 2 3 = Ok (Batches 2 3 1 (Tensor2 2 1 [[0]; [1]]) 0) /\
  epoch_indices (Batches 2 3 1 (Tensor2 2 1 [[0]; [1]]) 0) = [] /\
  forall k, ptb_producer [0; 1; 2] 2 3 k = Ok None.
Proof. repeat split; reflexivity. Qed.

(** C4. When the epoch size floor((batch_len - 1) / num_steps) is positive,
    batch_len >= num_steps + 1, every grid row has batch_len columns, and
    for every window index i in 0..epoch_size-1 the two slices end within
    the row, i * num_steps + num_steps + 1 <= batch_len: both slices are
    taken without an out-of-range error. *)
Theorem ptb_window_within_grid (raw_data : list Z) (bs ns : Z) (b : batches) (i : Z) :
  ptb_batches raw_data bs ns = Ok b ->
  0 < ns ->
  0 < epoch_size b ->
  0 <= i < epoch_size b ->
  epoch_size b = (batch_len b - 1) / num_steps b /\
  num_steps b + 1 <= batch_len b /\
  Forall (fun row => tf_size row = batch_len b) (rows (data b)) /\
  i * num_steps b + num_steps b + 1 <= batch_len b /\
  exists x y, ptb_window b i = Ok (x, y).
Proof.
  intros Hb Hns He Hi.
  apply ptb_batches_inv in Hb as (Hbs & _ & ->). simpl in *.
  set (L := tf_size raw_data) in *. set (bl := L / bs) in *.
  assert (0 <= bl) by (apply Z.div_pos; unfold L, tf_size; lia).
  assert (bs * bl <= L) by (apply Z.mul_div_le; lia).
  assert (i * ns + ns + 1 <= bl) by (by apply window_in_bounds).
  assert (0 * ns + ns + 1 <= bl) by (apply window_in_bounds; lia).
  repeat split; try lia.
  - eapply Forall_impl.
    + apply Forall_length_reshape_rows. rewrite length_take, length_map.
      unfold L, tf_size in *. nia.
    + intros row Hrow. unfold tf_size. simpl in Hrow. lia.
  - do 2 eexists. apply ptb_window_Ok; try lia.
    apply length_reshape_rows.
Qed.

Lemma ptb_window_within_grid_witness :
  0 < 3 /\ 0 < 2 /\ 0 <= 1 < 2 /\
  exists x y,
    ptb_window (Batches 2 3 7 (Tensor2 2 7 [[0; 1; 2; 3; 4; 5; 6]; [7; 8; 9; 10; 11; 12; 13]]) 2) 1
      = Ok (x, y).
Proof.
  repeat split; try lia.
  apply (ptb_window_within_grid [0; 1; 2; 3; 4; 5; 6; 7; 8; 9; 10; 11; 12; 13] 2 3
           (Batches 2 3 7 (Tensor2 2 7 [[0; 1; 2; 3; 4; 5; 6]; [7; 8; 9; 10; 11; 12; 13]]) 2) 1);
    [reflexivity | lia | simpl; lia | simpl; lia].
Defined.

(** C3. For a window index i in 0..epoch_size-1 the producer returns the
    pair (x, y) of shape [batch_size, num_steps] where x holds the grid
    columns i*num_steps .. i*num_steps+num_steps-1 and y the grid columns
    i*num_steps+1 .. i*num_steps+num_steps of the same rows; y is x shifted
    left by one column, followed by the grid column i*num_steps+num_steps. *)
Theorem ptb_window_input_target (raw_data : list Z) (bs ns : Z) (b : batches) (i : Z) :
  ptb_batches raw_data bs ns = Ok b ->
  0 < ns ->
  0 <= i < epoch_size b ->
  exists x y,
    ptb_window b i = Ok (x, y) /\
    dim0 x = bs /\ dim1 x = ns /\ dim0 y = bs /\ dim1 y = ns /\
    Z.of_nat (length (rows x)) = bs /\ Z.of_nat (length (rows y)) = bs /\
    Forall (fun row => tf_size row = ns) (rows x) /\
    Forall (fun row => tf_size row = ns) (rows y) /\
    (forall r j : nat,
       cell x r j =
         if decide (Z.of_nat j < ns)
         then cell (data b) r (Z.to_nat (i * ns) + j) else None) /\
    (forall r j : nat,
       cell y r j =
         if decide (Z.of_nat j < ns)
         then cell (data b) r (Z.to_nat (i * ns + 1) + j) else None) /\
    rows y = zip_with app (shift_left x) (column (data b) (Z.to_nat (i * ns + ns))) /\
    Forall (fun col => length col = 1%nat) (column (data b) (Z.to_nat (i * ns + ns))).
Proof.
  intros Hb Hns Hi.
  apply ptb_batches_inv in Hb as (Hbs & _ & ->). simpl in *.
  set (L := tf_size raw_data) in *. set (bl := L / bs) in *.
  set (grid := reshape_rows _ _ _).
  assert (0 <= bl) by (apply Z.div_pos; unfold L, tf_size; lia).
  assert (bs * bl <= L) by (apply Z.mul_div_le; lia).
  assert (i * ns + ns + 1 <= bl) by (by apply window_in_bounds).
  assert (Hgrid : Forall (fun row => length row = Z.to_nat bl) grid).
  { apply Forall_length_reshape_rows. rewrite length_take, length_map.
    unfold L, tf_size in *. nia. }
  assert (Hlen : length grid = Z.to_nat bs) by apply length_reshape_rows.
  do 2 eexists. split; [apply ptb_window_Ok; lia|]. simpl.
  rewrite !length_map, Hlen.
  repeat split; try lia.
  - apply Forall_fmap. eapply Forall_impl; [exact Hgrid|].
    intros row Hrow. unfold tf_size. simpl in *. rewrite length_take, length_drop. lia.
  - apply Forall_fmap. eapply Forall_impl; [exact Hgrid|].
    intros row Hrow. unfold tf_size. simpl in *. rewrite length_take, length_drop. lia.
  - intros r j. rewrite (cell_slice_rows grid bs ns bs bl).
    repeat case_decide; done || lia.
  - intros r j. rewrite (cell_slice_rows grid bs ns bs bl).
    repeat case_decide; done || lia.
  - unfold shift_left, column. simpl.
    replace (Z.to_nat (i * ns + 1)) with (S (Z.to_nat (i * ns))) by lia.
    replace (Z.to_nat (i * ns + ns)) with (Z.to_nat (i * ns) + Z.to_nat ns)%nat by lia.
    apply (rows_shift grid (Z.to_nat bl)); [lia|lia|done].
  - unfold column. simpl.
    replace (Z.to_nat (i * ns + ns)) with (Z.to_nat (i * ns) + Z.to_nat ns)%nat by lia.
    apply (rows_shift grid (Z.to_nat bl)); [lia|lia|done].
Qed.

Lemma ptb_window_input_target_witness :
  0 < 3 /\ 0 <= 1 < 2 /\
  exists x y,
    ptb_window (Batches 2 3 7 (Tensor2 2 7 [[0; 1; 2; 3; 4; 5; 6]; [7; 8; 9; 10; 11; 12; 13]]) 2) 1
      = Ok (x, y) /\
    rows y = zip_with app (shift_left x)
               (column (Tensor2 2 7 [[0; 1; 2; 3; 4; 5; 6]; [7; 8; 9; 10; 11; 12; 13]]) 6).
Proof.
  repeat split; try lia.
  destruct (ptb_window_input_target [0; 1; 2; 3; 4; 5; 6; 7; 8; 9; 10; 11; 12; 13] 2 3
              (Batches 2 3 7 (Tensor2 2 7 [[0; 1; 2; 3; 4; 5; 6]; [7; 8; 9; 10; 11; 12; 13]]) 2) 1)
    as (x & y & Hw & _ & _ & _ & _ & _ & _ & _ & _ & _ & _ & Hs & _);
    [reflexivity | lia | simpl; lia |].
  exists x, y. split; [exact Hw | exact Hs].
Defined.




(** ** Strings: [startswith], [replace], [split] *)

Section replace_facts.

Variables old new : unicode.
Hypothesis old_nonempty : old <> [].

Lemma startswith_app s : startswith old (old ++ s) = true.
Proof using Type.
  clear old_nonempty. induction old as [|a o IH]; simpl; [done|].
  by rewrite N.eqb_refl.
Qed.

Lemma startswith_inv s : startswith old s = true -> s = old ++ drop (length old) s.
Proof using Type.
  clear old_nonempty. revert s. induction old as [|a o IH]; intros s H; simpl in *.
  - by rewrite drop_0.
  - destruct s as [|c s]; [done|].
    apply andb_true_iff in H as [Hc Hs]. apply N.eqb_eq in Hc as ->.
    simpl. f_equal. by apply IH.
Qed.

Lemma startswith_app_l s t : startswith old s = true -> startswith old (s ++ t) = true.
Proof using Type.
  intros H. rewrite (startswith_inv s H), <- (assoc_L (++)). apply startswith_app.
Qed.

Lemma replace_from_skip k s :
  replace_from old new k s = replace_from old new 0 (drop k s).
Proof using Type.
  revert k. induction s as [|c s IH]; intros k.
  - by rewrite drop_nil.
  - destruct k as [|k]; [done|]. simpl. apply IH.
Qed.

Lemma replace_unfold s : replace old new s = replace_from old new 0 s.
Proof using old_nonempty. unfold replace. by destruct old. Qed.

Lemma replace_nil : replace old new [] = [].
Proof using old_nonempty. by rewrite replace_unfold. Qed.

Lemma replace_match s :
  startswith old s = true ->
  replace old new s = new ++ replace old new (drop (length old) s).
Proof using old_nonempty.
  intros H. rewrite !replace_unfold.
  destruct s as [|c s]; [by destruct old|].
  simpl. rewrite H, replace_from_skip.
  destruct old as [|a o]; [done|]. simpl. by rewrite Nat.sub_0_r.
Qed.

Lemma replace_match_app s : replace old new (old ++ s) = new ++ replace old new s.
Proof using old_nonempty.
  rewrite replace_match by apply startswith_app.
  by rewrite drop_app_length.
Qed.

Lemma replace_cons c s :
  startswith old (c :: s) = false ->
  replace old new (c :: s) = c :: replace old new s.
Proof using old_nonempty. intros H. rewrite !replace_unfold. simpl in *. by rewrite H. Qed.

(** A character that does not occur in [old] after its first character
    cannot lie inside a match that starts before it. *)
Lemma startswith_straddle o t x b :
  (length t < length o)%nat -> x ∉ o -> startswith o (t ++ x :: b) = false.
Proof using Type.
  revert o. induction t as [|c t IH]; intros [|a o] Hlen Hx; simpl in *; try lia.
  - apply not_elem_of_cons in Hx as [Hx _].
    destruct (N.eqb_spec a x); [congruence|done].
  - apply not_elem_of_cons in Hx as [_ Hx].
    rewrite IH by (done || lia). apply andb_false_r.
Qed.

Lemma replace_app_sep a x b :
  x ∉ tail old ->
  replace old new (a ++ x :: b) = replace old new a ++ replace old new (x :: b).
Proof using old_nonempty.
  intros Hx. remember (length a) as n eqn:Hn. revert a Hn.
  induction n as [n IH] using lt_wf_ind. intros a ->.
  destruct a as [|c a]; [by rewrite replace_nil|].
  destruct (startswith old (c :: a)) eqn:Ha.
  - rewrite (replace_match (c :: a)) by done.
    rewrite (replace_match ((c :: a) ++ x :: b)) by (by apply startswith_app_l).
    assert (length old <= length (c :: a))%nat as Hle.
    { rewrite (startswith_inv _ Ha), length_app. lia. }
    rewrite drop_app_le by done. rewrite <- (assoc_L (++)). f_equal.
    apply (IH (length (drop (length old) (c :: a)))); [|done].
    rewrite length_drop. destruct old; [done|]. simpl in *. lia.
  - destruct (startswith old ((c :: a) ++ x :: b)) eqn:Hab.
    + exfalso. destruct old as [|o1 o]; [done|]. simpl in Hab, Ha, Hx.
      apply andb_true_iff in Hab as [Hc Hab].
      rewrite Hc in Ha. simpl in Ha.
      destruct (decide (length a < length o)%nat) as [Hlt|Hge].
      * by rewrite startswith_straddle in Hab.
      * clear IH Hx old_nonempty Hc. revert a Ha Hab Hge.
        induction o as [|o2 o IHo]; intros a Ha Hab Hge; [done|].
        destruct a as [|c2 a]; simpl in *; [lia|].
        apply andb_true_iff in Hab as [Hc2 Hab]. rewrite Hc2 in Ha. simpl in Ha.
        apply (IHo a); [done|done|lia].
    + change ((c :: a) ++ x :: b) with (c :: (a ++ x :: b)) in *.
      rewrite (replace_cons c (a ++ x :: b)) by done.
      rewrite (replace_cons c a) by done. simpl. f_equal.
      apply (IH (length a)); [simpl; lia|done].
Qed.

End replace_facts.

Section replace_by_char.

Variables (old : unicode) (p : unichar).
Hypothesis old_nonempty : old <> [].

Lemma replace_head_inv s c r :
  replace old [p] s = c :: r -> c <> p ->
  exists s', s = c :: s' /\ r = replace old [p] s'.
Proof using old_nonempty.
  intros H Hc. destruct s as [|c' s]; [by rewrite replace_nil in H|].
  destruct (startswith old (c' :: s)) eqn:Hs.
  - rewrite replace_match in H by done. simpl in H. congruence.
  - rewrite replace_cons in H by done. injection H as -> <-. eauto.
Qed.

Lemma startswith_replace_inv o s :
  p ∉ o -> startswith o (replace old [p] s) = true -> startswith o s = true.
Proof using old_nonempty.
  revert s. induction o as [|a o IH]; intros s Hp H; [done|].
  apply not_elem_of_cons in Hp as [Hpa Hp].
  destruct (replace old [p] s) as [|c r] eqn:E; [done|]. simpl in H.
  apply andb_true_iff in H as [Hc Hr]. apply N.eqb_eq in Hc as <-.
  apply replace_head_inv in E as (s' & -> & ->); [|done].
  simpl. rewrite N.eqb_refl. simpl. by apply IH.
Qed.

Lemma occurs_replace s : p ∉ old -> occurs old (replace old [p] s) = false.
Proof using old_nonempty.
  intros Hp. remember (length s) as n eqn:Hn. revert s Hn.
  induction n as [n IH] using lt_wf_ind. intros s ->.
  destruct s as [|c s].
  - rewrite replace_nil by done. simpl. destruct old; [done|]. done.
  - destruct (startswith old (c :: s)) eqn:Hs.
    + rewrite replace_match by done. simpl.
      rewrite (IH (length (drop (length old) (c :: s)))); [| |done].
      * destruct old as [|a o]; [done|]. simpl.
        apply not_elem_of_cons in Hp as [Hp _].
        destruct (N.eqb_spec a p); [congruence|done].
      * rewrite length_drop. destruct old; [done|]. simpl. lia.
    + destruct (startswith old (replace old [p] (c :: s))) eqn:Hr.
      * apply startswith_replace_inv in Hr; [congruence|done].
      * rewrite replace_cons in * by done. simpl in *.
        rewrite Hr. simpl. apply (IH (length s)); [lia|done].
Qed.

End replace_by_char.

Lemma occurs_unfold old s :
  occurs old s =
    startswith old s || match s with [] => false | _ :: s' => occurs old s' end.
Proof. by destruct s. Qed.

Lemma occurs_app old a b : occurs old (a ++ old ++ b) = true.
Proof.
  induction a as [|c a IH]; simpl.
  - by rewrite occurs_unfold, startswith_app.
  - rewrite IH. apply orb_true_r.
Qed.

Lemma startswith_cons_ne a o c s : a <> c -> startswith (a :: o) (c :: s) = false.
Proof. intros Hne. simpl. destruct (N.eqb_spec a c); [congruence|done]. Qed.

Lemma replace_char_app c new a b :
  replace [c] new (a ++ b) = replace [c] new a ++ replace [c] new b.
Proof.
  destruct b as [|x b].
  - by rewrite replace_nil, !app_nil_r.
  - apply replace_app_sep; [done|]. simpl. apply not_elem_of_nil.
Qed.

Lemma replace_char_other c new x s :
  x <> c -> replace [c] new (x :: s) = x :: replace [c] new s.
Proof.
  intros Hx. apply replace_cons; [done|]. apply startswith_cons_ne. congruence.
Qed.

Section split_facts.

Lemma split_from_nonspace cur s :
  Forall (fun c => isspace c = false) cur ->
  Forall (fun w => w <> [] /\ Forall (fun c => isspace c = false) w) (split_from cur s).
Proof.
  revert cur. induction s as [|c s IH]; intros cur Hcur; simpl.
  - destruct cur; [constructor|]. constructor; [done|constructor].
  - destruct (isspace c) eqn:Hc.
    + destruct cur; [by apply IH|]. constructor; [done|]. by apply IH.
    + apply IH. apply Forall_app. split; [done|]. by constructor.
Qed.

Lemma split_nonspace s :
  Forall (fun w => w <> [] /\ Forall (fun c => isspace c = false) w) (split s).
Proof. by apply split_from_nonspace. Qed.

End split_facts.

Section read_chars.

Lemma chars_of_text_app_eos a b :
  chars_of_text (a ++ u "<eos>" ++ b) = chars_of_text a ++ u "+" ++ chars_of_text b.
Proof.
  unfold chars_of_text, newline. rewrite !replace_char_app.
  assert (replace [10%N] (u "<eos>") (u "<eos>") = u "<eos>") as -> by reflexivity.
  change (u "<eos>" ++ replace [10%N] (u "<eos>") b)
    with (60%N :: (u "eos>" ++ replace [10%N] (u "<eos>") b)).
  rewrite replace_app_sep; [|done|by apply (bool_decide_unpack _)].
  f_equal.
Qed.

Lemma chars_of_text_app_newline a b :
  chars_of_text (a ++ newline ++ b) = chars_of_text a ++ u "+" ++ chars_of_text b.
Proof.
  rewrite <- chars_of_text_app_eos. unfold chars_of_text, newline.
  by rewrite !replace_char_app.
Qed.

(** A character other than the line feed that does not occur in ["<eos>"]
    goes through unchanged. *)
Lemma chars_of_text_app_other a c b :
  c <> 10%N -> c ∉ u "<eos>" ->
  chars_of_text (a ++ c :: b) = chars_of_text a ++ c :: chars_of_text b.
Proof.
  intros Hnl Hc. unfold chars_of_text, newline.
  rewrite replace_char_app, replace_char_other by done.
  rewrite replace_app_sep; [|done|].
  - f_equal. apply replace_cons; [done|].
    apply startswith_cons_ne. intros <-.
    apply Hc. by apply (bool_decide_unpack _).
  - intros Hin. apply Hc.
    change (u "<eos>") with (60%N :: tail (u "<eos>")).
    apply elem_of_cons. by right.
Qed.

Lemma chars_of_text_no_eos text a b : chars_of_text text <> a ++ u "<eos>" ++ b.
Proof.
  intros H. pose proof (occurs_app (u "<eos>") a b) as Ho.
  rewrite <- H in Ho. unfold chars_of_text, newline in Ho.
  rewrite (occurs_replace (u "<eos>") 43%N) in Ho; [done|done|].
  by apply (bool_decide_unpack _).
Qed.

Lemma chars_of_text_no_newline text : 10%N ∉ chars_of_text text.
Proof.
  unfold chars_of_text, newline. set (t := replace [10%N] (u "<eos>") text).
  assert (Ht : 10%N ∉ t).
  { unfold t. induction text as [|c text IH]; [by rewrite replace_nil; [apply not_elem_of_nil|]|].
    destruct (decide (c = 10%N)) as [->|Hc].
    - change (10%N :: text) with ([10%N] ++ text).
      rewrite replace_match_app by done.
      apply not_elem_of_app. split; [by apply (bool_decide_unpack _)|done].
    - rewrite replace_char_other by done. by apply not_elem_of_cons. }
  clearbody t. remember (length t) as n eqn:Hn. revert t Hn Ht.
  induction n as [n IH] using lt_wf_ind. intros t -> Ht.
  destruct t as [|c t]; [by rewrite replace_nil; [apply not_elem_of_nil|]|].
  apply not_elem_of_cons in Ht as [Hc Ht].
  destruct (startswith (u "<eos>") (c :: t)) eqn:Hs.
  - rewrite replace_match by done. apply not_elem_of_app.
    split; [by apply (bool_decide_unpack _)|].
    apply (IH (length (drop (length (u "<eos>")) (c :: t)))); [|done|].
    + rewrite length_drop. simpl. lia.
    + intros Hin. apply list_elem_of_lookup in Hin as (i & Hi).
      rewrite lookup_drop in Hi. apply list_elem_of_lookup_2 in Hi.
      by apply not_elem_of_cons in Hi.
  - rewrite replace_cons by done. apply not_elem_of_cons. split; [done|].
    by apply (IH (length t)); [simpl; lia| |].
Qed.

End read_chars.

(** C10. In character mode every occurrence of "<eos>", whether it stands
    for a line feed of the file or was in the file as such, becomes the
    single character "+": the text read is the text before it, "+", and the
    text after it, each treated the same way, and neither "<eos>" nor a line
    feed is left. A space stays in the text as a character token of its
    own, whereas no word token of word mode holds a whitespace character. *)
Theorem read_chars_collapses_eos :
  (forall fs filename,
     _read_chars fs filename =
       match fs filename with
       | Some text => Ok (chars_of_text text)
       | None => Raise NotFoundError
       end) /\
  (forall a b,
     chars_of_text (a ++ newline ++ b) = chars_of_text a ++ u "+" ++ chars_of_text b) /\
  (forall a b,
     chars_of_text (a ++ u "<eos>" ++ b) = chars_of_text a ++ u "+" ++ chars_of_text b) /\
  (forall text a b, chars_of_text text <> a ++ u "<eos>" ++ b) /\
  (forall text a b, chars_of_text text <> a ++ newline ++ b) /\
  (forall a b,
     iter_str (chars_of_text (a ++ u " " ++ b)) =
       iter_str (chars_of_text a) ++ [u " "] ++ iter_str (chars_of_text b)) /\
  isspace 32 = true /\
  (forall text,
     Forall (fun w => w <> [] /\ Forall (fun c => isspace c = false) w)
       (words_of_text text)).
Proof.
  split; [|split; [|split; [|split; [|split; [|split; [|split]]]]]].
  - intros fs filename. unfold _read_chars, GFile_read. by destruct (fs filename).
  - apply chars_of_text_app_newline.
  - apply chars_of_text_app_eos.
  - apply chars_of_text_no_eos.
  - intros text a b H. apply (chars_of_text_no_newline text).
    rewrite H. unfold newline. rewrite !elem_of_app, elem_of_cons. tauto.
  - intros a b. unfold iter_str.
    change (u " " ++ b) with (32%N :: b).
    rewrite chars_of_text_app_other; [|done|by apply (bool_decide_unpack _)].
    by rewrite map_app.
  - reflexivity.
  - intros text. apply split_nonspace.
Qed.

Section encoding.

Variable word_to_id : gmap unicode nat.

Lemma encode_tokens_omap data :
  encode_tokens word_to_id data = Ok (omap (fun w => word_to_id !! w) data).
Proof.
  induction data as [|w data IH]; [done|]. simpl.
  unfold dict_contains, dict_getitem. rewrite IH.
  destruct (word_to_id !! w) as [i|] eqn:E.
  - by rewrite bool_decide_eq_true_2 by eauto.
  - by rewrite bool_decide_eq_false_2 by (by intros [? ?]).
Qed.

End encoding.

(** C8. Encoding a file against a vocabulary raises nothing for a token
    that is not in the vocabulary: the ids are the ids of the tokens of the
    file that are in the vocabulary, in the order of the file; a token that
    is in the vocabulary gives its id, one that is not gives nothing. *)
Theorem file_to_word_ids_drops_unknown :
  (forall fs filename word_to_id,
     _file_to_word_ids fs filename word_to_id =
       match fs filename with
       | Some text => Ok (omap (fun w => word_to_id !! w) (words_of_text text))
       | None => Raise NotFoundError
       end) /\
  (forall word_to_id data,
     encode_tokens word_to_id data = Ok (omap (fun w => word_to_id !! w) data)) /\
  (forall word_to_id w,
     encode_tokens word_to_id [w] =
       Ok (match word_to_id !! w with Some id => [id] | None => [] end)) /\
  (forall word_to_id data1 data2,
     exists ids1 ids2,
       encode_tokens word_to_id data1 = Ok ids1 /\
       encode_tokens word_to_id data2 = Ok ids2 /\
       encode_tokens word_to_id (data1 ++ data2) = Ok (ids1 ++ ids2)).
Proof.
  split; [|split; [|split]].
  - intros fs filename m. unfold _file_to_word_ids, _read_words, GFile_read.
    destruct (fs filename); [|done]. simpl. apply encode_tokens_omap.
  - apply encode_tokens_omap.
  - intros m w. rewrite encode_tokens_omap. simpl. by destruct (m !! w).
  - intros m d1 d2. do 2 eexists. rewrite !encode_tokens_omap.
    split; [done|]. split; [done|]. by rewrite omap_app.
Qed.

(** C9. With a level other than "word" and "char", [ptb_raw_data] raises
    its exception for an unknown level and returns no data, whatever the
    data path and the files. *)
Theorem ptb_raw_data_unknown_level (fs : filesystem) (data_path : option string)
    (level : string) :
  level <> "word"%string ->
  level <> "char"%string ->
  ptb_raw_data fs data_path level = Raise (Exception "Unknown level").
Proof.
  intros Hw Hc. unfold ptb_raw_data.
  destruct (String.eqb_spec level "word"); [done|].
  destruct (String.eqb_spec level "char"); [done|].
  done.
Qed.

Lemma ptb_raw_data_unknown_level_witness :
  "line"%string <> "word"%string /\ "line"%string <> "char"%string /\
  ptb_raw_data (fun _ => Some (u "a b")) (Some "data"%string) "line"
    = Raise (Exception "Unknown level").
Proof.
  split; [discriminate|]. split; [discriminate|].
  apply ptb_raw_data_unknown_level; discriminate.
Defined.

(** ** The order of the sort keys *)

Section key_order.

Lemma unicode_lt_lexico (a b : unicode) : unicode_lt a b = true <-> lexico a b.
Proof.
  revert b. induction a as [|x a IH]; intros [|y b]; simpl; try done.
  unfold lexico at 1, list_lexico. fold (@list_lexico N _).
  rewrite orb_true_iff, andb_true_iff, N.ltb_lt, N.eqb_eq, IH.
  done.
Qed.

Lemma tuple_lt_lexico (a b : Z * unicode) : tuple_lt a b = true <-> lexico a b.
Proof.
  unfold tuple_lt.
  rewrite orb_true_iff, andb_true_iff, Z.ltb_lt, Z.eqb_eq, unicode_lt_lexico.
  done.
Qed.

Lemma tuple_lt_asym (a b : Z * unicode) : tuple_lt a b = true -> tuple_lt b a = false.
Proof.
  rewrite tuple_lt_lexico. intros Hab.
  apply not_true_is_false. rewrite tuple_lt_lexico. intros Hba.
  apply (irreflexivity lexico a). by trans b.
Qed.

Lemma tuple_lt_false (a b : Z * unicode) :
  tuple_lt a b = false <-> a = b \/ lexico b a.
Proof.
  rewrite <- not_true_iff_false, tuple_lt_lexico. split.
  - intros Hnab. destruct (trichotomyT lexico a b) as [[?|?]|?]; tauto.
  - intros [->|Hba] Hab.
    + by apply (irreflexivity lexico b).
    + apply (irreflexivity lexico a). by trans b.
Qed.

Lemma sort_key_inj (a b : unicode * nat) : sort_key a = sort_key b -> a = b.
Proof.
  destruct a as [w c], b as [w' c']. unfold sort_key. simpl.
  intros [= Hc ->]. f_equal. lia.
Qed.

#[global] Instance item_le_trans : Transitive item_le.
Proof.
  intros a b c. unfold item_le. rewrite !tuple_lt_false.
  generalize (sort_key a) (sort_key b) (sort_key c).
  intros ka kb kc [->|Hab] [->|Hbc]; [by left|by right|by right|].
  right. by trans kb.
Qed.

#[global] Instance item_le_antisym : AntiSymm (=) item_le.
Proof.
  intros a b. unfold item_le. rewrite !tuple_lt_false.
  intros [Hab|Hab] [Hba|Hba]; try (by apply sort_key_inj).
  exfalso. apply (irreflexivity lexico (sort_key a)). by trans (sort_key b).
Qed.

Lemma item_le_total (a b : unicode * nat) : item_le a b \/ item_le b a.
Proof.
  unfold item_le. rewrite !tuple_lt_false.
  destruct (trichotomyT lexico (sort_key a) (sort_key b)) as [[?|?]|?]; auto.
Qed.

Lemma item_le_ne_lt (a b : unicode * nat) :
  item_le a b -> a <> b -> tuple_lt (sort_key a) (sort_key b) = true.
Proof.
  unfold item_le. rewrite tuple_lt_false, tuple_lt_lexico.
  intros [Heq|Hlt] Hne; [|done]. by apply sort_key_inj in Heq.
Qed.

End key_order.

(** ** [sorted] *)

Section sorted_facts.

Context {A K : Type} (key : A -> K) (lt : K -> K -> bool).
Hypothesis lt_asym : forall a b, lt a b = true -> lt b a = false.

Let key_le (a b : A) : Prop := lt (key b) (key a) = false.

Lemma sorted_insert_Permutation x l : sorted_insert key lt x l ≡ₚ x :: l.
Proof using Type.
  induction l as [|y l IH]; simpl; [done|].
  destruct (lt (key y) (key x)); [|done].
  rewrite IH. apply Permutation_swap.
Qed.

Lemma sorted_Permutation l : sorted key lt l ≡ₚ l.
Proof using Type.
  induction l as [|x l IH]; simpl; [done|].
  by rewrite sorted_insert_Permutation, IH.
Qed.

Lemma HdRel_sorted_insert y x l :
  key_le y x -> HdRel key_le y l -> HdRel key_le y (sorted_insert key lt x l).
Proof using Type.
  intros Hyx Hyl. destruct l as [|z l]; simpl; [by constructor|].
  destruct (lt (key z) (key x)); constructor; [|done].
  by inversion Hyl.
Qed.

Lemma Sorted_sorted_insert x l :
  Sorted key_le l -> Sorted key_le (sorted_insert key lt x l).
Proof using lt_asym.
  induction 1 as [|y l Hl IH Hy]; simpl; [by repeat constructor|].
  destruct (lt (key y) (key x)) eqn:Hyx.
  - constructor; [done|]. apply HdRel_sorted_insert; [|done].
    by apply lt_asym.
  - by repeat constructor.
Qed.

Lemma Sorted_sorted l : Sorted key_le (sorted key lt l).
Proof using lt_asym.
  induction l as [|x l IH]; simpl; [constructor|].
  by apply Sorted_sorted_insert.
Qed.

End sorted_facts.

Section sorted_items.

Lemma Sorted_sorted_items its : Sorted item_le (sorted sort_key tuple_lt its).
Proof. apply (Sorted_sorted sort_key tuple_lt). apply tuple_lt_asym. Qed.

(** The sorted list does not depend on the order of the items. *)
Lemma sorted_items_Permutation its1 its2 :
  its1 ≡ₚ its2 -> sorted sort_key tuple_lt its1 = sorted sort_key tuple_lt its2.
Proof.
  intros Hp. apply (Sorted_unique item_le); try apply Sorted_sorted_items.
  by rewrite !sorted_Permutation.
Qed.

Lemma vocab_of_items_Permutation its1 its2 :
  its1 ≡ₚ its2 -> vocab_of_items its1 = vocab_of_items its2.
Proof. intros Hp. unfold vocab_of_items. by rewrite (sorted_items_Permutation its1 its2). Qed.

End sorted_items.

(** ** [Counter] and [dict] *)

Section counter_facts.

Lemma count_cons w x data :
  count w (x :: data) = if decide (x = w) then S (count w data) else count w data.
Proof. unfold count. rewrite filter_cons. by case_decide. Qed.

Lemma count_not_elem_of w data : w ∉ data -> count w data = 0%nat.
Proof.
  induction data as [|x data IH]; [done|].
  rewrite not_elem_of_cons, count_cons. intros [Hne Hnin].
  rewrite decide_False by done. by apply IH.
Qed.

Lemma count_elem_of w data : w ∈ data -> (0 < count w data)%nat.
Proof.
  induction data as [|x data IH]; [by intros ?%elem_of_nil|].
  rewrite elem_of_cons, count_cons. intros [->|Hin].
  - rewrite decide_True by done. lia.
  - case_decide; [lia|]. by apply IH.
Qed.

Lemma Counter_from_lookup (c0 : gmap unicode nat) data w :
  foldl (fun c elem => <[elem := (default 0 (c !! elem) + 1)%nat]> c) c0 data !! w =
    if decide (w ∈ data)
    then Some (default 0 (c0 !! w) + count w data)%nat
    else c0 !! w.
Proof.
  revert c0. induction data as [|x data IH]; intros c0; [done|].
  simpl. rewrite IH, count_cons. destruct (decide (x = w)) as [->|Hne].
  - rewrite lookup_insert_eq. simpl.
    rewrite (decide_True (P := w ∈ w :: data)) by apply list_elem_of_here.
    case_decide as Hin.
    + f_equal; lia.
    + rewrite count_not_elem_of by done. f_equal; lia.
  - rewrite lookup_insert_ne by done.
    destruct (decide (w ∈ data)) as [Hin|Hin].
    + by rewrite decide_True by (by apply list_elem_of_further).
    + rewrite decide_False; [done|].
      rewrite elem_of_cons. intros [?|?]; congruence.
Qed.

(** The counter holds, for each token of [data], its number of occurrences. *)
Lemma Counter_lookup data w :
  Counter data !! w = if decide (w ∈ data) then Some (count w data) else None.
Proof. unfold Counter. by rewrite Counter_from_lookup, lookup_empty. Qed.

Lemma elem_of_items_Counter data w c :
  (w, c) ∈ items (Counter data) <-> w ∈ data /\ c = count w data.
Proof.
  unfold items. rewrite elem_of_map_to_list, Counter_lookup.
  case_decide as Hin; split.
  - by intros [= <-].
  - by intros [_ ->].
  - done.
  - by intros [? _].
Qed.

Lemma dom_Counter data : dom (Counter data) = list_to_set data.
Proof.
  apply set_eq. intros w.
  rewrite elem_of_dom, elem_of_list_to_set, Counter_lookup.
  case_decide; [by split; eauto|]. split; [by intros [? ?]|done].
Qed.

End counter_facts.

Section dict_facts.

Lemma dict_snoc l k v : dict (l ++ [(k, v)]) = <[k := v]> (dict l).
Proof. unfold dict. by rewrite foldl_snoc. Qed.

Lemma dict_list_to_map l : dict l = list_to_map (reverse l).
Proof.
  induction l as [|[k v] l IH] using rev_ind; [done|].
  by rewrite dict_snoc, reverse_snoc, IH.
Qed.

Lemma dict_lookup l k v : NoDup l.*1 -> dict l !! k = Some v <-> (k, v) ∈ l.
Proof.
  intros Hnd. rewrite dict_list_to_map, <- elem_of_list_to_map, elem_of_reverse; [done|].
  by rewrite fmap_reverse, reverse_Permutation.
Qed.

Lemma size_dict l : NoDup l.*1 -> size (dict l) = length l.
Proof.
  intros Hnd. rewrite dict_list_to_map, <- length_map_to_list.
  rewrite map_to_list_to_map, length_reverse; [done|].
  by rewrite fmap_reverse, reverse_Permutation.
Qed.

Lemma elem_of_zip_range (words : list unicode) w i :
  (w, i) ∈ zip words (range (length words)) <-> words !! i = Some w.
Proof.
  unfold range. rewrite elem_of_lookup_zip_with. split.
  - intros (j & x & y & [= -> ->] & Hx & Hy).
    apply lookup_seq in Hy as [-> _]. done.
  - intros Hw. exists i, w, i. split; [done|]. split; [done|].
    apply lookup_seq. split; [done|]. by apply lookup_lt_Some in Hw.
Qed.

Lemma dict_zip_range_lookup (words : list unicode) w i :
  NoDup words ->
  dict (zip words (range (length words))) !! w = Some i <-> words !! i = Some w.
Proof.
  intros Hnd. rewrite dict_lookup, elem_of_zip_range; [done|].
  rewrite fst_zip; [done|]. unfold range. by rewrite length_seq.
Qed.

End dict_facts.

(** ** The vocabulary *)

Section vocabulary.

Lemma StronglySorted_fmap_inv {A B : Type} (f : A -> B) (R : relation B) l :
  StronglySorted R (f <$> l) -> StronglySorted (fun a b => R (f a) (f b)) l.
Proof.
  induction l as [|x l IH]; [constructor|].
  rewrite fmap_cons. intros Hs. apply StronglySorted_inv in Hs as [Hl Hx].
  constructor; [by apply IH|].
  rewrite Forall_forall in Hx. apply Forall_forall. intros y Hy.
  apply Hx, list_elem_of_fmap. eauto.
Qed.

Lemma StronglySorted_strict (l : list (unicode * nat)) :
  StronglySorted item_le l -> NoDup l ->
  StronglySorted (fun a b => tuple_lt (sort_key a) (sort_key b) = true) l.
Proof.
  induction 1 as [|x l Hl IH Hx]; intros Hnd; [constructor|].
  apply NoDup_cons in Hnd as [Hnin Hnd].
  constructor; [by apply IH|].
  apply Forall_forall. intros y Hy.
  apply item_le_ne_lt; [by eapply Forall_forall in Hx|].
  intros ->. done.
Qed.

Variable data : list unicode.

(** The words of the vocabulary, in the order of their ids. *)
Lemma vocab_of_items_words its :
  data <> [] -> its ≡ₚ items (Counter data) ->
  exists words,
    vocab_of_items its = Ok (dict (zip words (range (length words)))) /\
    (fun w => (w, count w data)) <$> words
      = sorted sort_key tuple_lt (items (Counter data)) /\
    StronglySorted
      (fun w1 w2 => tuple_lt (token_key data w1) (token_key data w2) = true) words /\
    NoDup words /\
    (forall w, w ∈ words <-> w ∈ data).
Proof.
  intros Hdata Hits.
  set (cp := sorted sort_key tuple_lt (items (Counter data))).
  assert (Hperm : cp ≡ₚ items (Counter data)) by apply sorted_Permutation.
  assert (Hcount : Forall (fun it => it = (it.1, count it.1 data)) cp).
  { apply Forall_forall. intros [w c] Hin. rewrite Hperm in Hin.
    apply elem_of_items_Counter in Hin as [_ ->]. done. }
  assert (Hcp : (fun w => (w, count w data)) <$> cp.*1 = cp).
  { rewrite <- list_fmap_compose. rewrite <- (list_fmap_id cp) at 2.
    apply Forall_fmap_ext. eapply Forall_impl; [exact Hcount|].
    intros it Hit. simpl. by rewrite <- Hit. }
  assert (Hnd : NoDup cp.*1).
  { rewrite Hperm. apply NoDup_fst_map_to_list. }
  assert (Helem : forall w, w ∈ cp.*1 <-> w ∈ data).
  { intros w. rewrite Hperm, list_elem_of_fmap. split.
    - intros ([w' c] & -> & Hin). by apply elem_of_items_Counter in Hin as [? _].
    - intros Hin. exists (w, count w data). split; [done|].
      by apply elem_of_items_Counter. }
  exists cp.*1. split; [|split; [done|split; [|done]]].
  - unfold vocab_of_items. rewrite (sorted_items_Permutation its _ Hits). fold cp.
    destruct cp as [|it cp'] eqn:E; [|done].
    destruct data as [|w data']; [done|].
    exfalso. apply (not_elem_of_nil w). apply Helem. apply list_elem_of_here.
  - apply (StronglySorted_fmap_inv (fun w => (w, count w data))
             (fun a b => tuple_lt (sort_key a) (sort_key b) = true)).
    rewrite Hcp. apply StronglySorted_strict.
    + apply Sorted_StronglySorted; [apply _|]. apply Sorted_sorted_items.
    + rewrite Hperm. apply NoDup_map_to_list.
Qed.

End vocabulary.

(** C6 (amended). For every training text with at least one token, the
    vocabulary builder counts the occurrences of each token exactly, sorts
    the tokens by (-count, token) and gives them the ids 0..N-1 in that
    order, N being the number of distinct tokens: the ids given are exactly
    0..N-1, and no two tokens share an id. *)
Theorem build_vocab_ids (fs : filesystem) (filename : string) (text : unicode) :
  fs filename = Some text ->
  words_of_text text <> [] ->
  exists words word_to_id,
    _build_vocab fs filename = Ok word_to_id /\
    (forall w,
       Counter (words_of_text text) !! w =
         if decide (w ∈ words_of_text text)
         then Some (count w (words_of_text text)) else None) /\
    (fun w => (w, count w (words_of_text text))) <$> words
      = sorted sort_key tuple_lt (items (Counter (words_of_text text))) /\
    StronglySorted
      (fun w1 w2 =>
         tuple_lt (token_key (words_of_text text) w1)
                  (token_key (words_of_text text) w2) = true) words /\
    NoDup words /\
    (forall w, w ∈ words <-> w ∈ words_of_text text) /\
    length words = size (list_to_set (words_of_text text) : gset unicode) /\
    (forall w i, word_to_id !! w = Some i <-> words !! i = Some w) /\
    (forall i, (exists w, word_to_id !! w = Some i) <-> (i < length words)%nat) /\
    (forall w1 w2 i,
       word_to_id !! w1 = Some i -> word_to_id !! w2 = Some i -> w1 = w2) /\
    size word_to_id = length words.
Proof.
  intros Hfile Hdata.
  destruct (vocab_of_items_words (words_of_text text)
              (items (Counter (words_of_text text))) Hdata)
    as (words & Hvocab & Hsorted & Hstrict & Hnd & Helem); [done|].
  exists words, (dict (zip words (range (length words)))).
  assert (Hlookup : forall w i,
            dict (zip words (range (length words))) !! w = Some i
            <-> words !! i = Some w)
    by (intros w i; by apply dict_zip_range_lookup).
  split; [|split; [|split; [|split; [|split; [|split; [|split;
    [|split; [|split; [|split]]]]]]]]]; try done.
  - unfold _build_vocab, _read_words, GFile_read. rewrite Hfile. exact Hvocab.
  - apply Counter_lookup.
  - rewrite <- (size_list_to_set (C := gset unicode) words) by done.
    f_equal. apply set_eq. intros w. by rewrite !elem_of_list_to_set.
  - intros i. split.
    + intros [w Hw]. apply Hlookup in Hw. by apply lookup_lt_Some in Hw.
    + intros Hi. destruct (lookup_lt_is_Some_2 words i Hi) as [w Hw].
      exists w. by apply Hlookup.
  - intros w1 w2 i H1 H2. apply Hlookup in H1, H2. congruence.
  - rewrite size_dict.
    + rewrite length_zip_with_l_eq; [done|]. unfold range. by rewrite length_seq.
    + rewrite fst_zip; [done|]. unfold range. by rewrite length_seq.
Qed.

Lemma build_vocab_ids_witness :
  single_file "ptb.train.txt" (u " b a b ") "ptb.train.txt" = Some (u " b a b ") /\
  words_of_text (u " b a b ") <> [] /\
  exists words word_to_id,
    _build_vocab (single_file "ptb.train.txt" (u " b a b ")) "ptb.train.txt"
      = Ok word_to_id /\
    (forall w i, word_to_id !! w = Some i <-> words !! i = Some w) /\
    size word_to_id = length words.
Proof.
  split; [reflexivity|]. split; [discriminate|].
  destruct (build_vocab_ids (single_file "ptb.train.txt" (u " b a b "))
              "ptb.train.txt" (u " b a b "))
    as (words & m & Hm & _ & _ & _ & _ & _ & _ & Hl & _ & _ & Hs);
    [reflexivity | discriminate |].
  exists words, m. split; [exact Hm|]. split; [exact Hl | exact Hs].
Defined.

(** C6 as stated fails on a training text without a token: for the empty
    file the builder gives no mapping, it raises [ValueError] where the
    sorted pairs are unpacked. *)
Lemma build_vocab_empty_text :
  words_of_text [] = [] /\
  _build_vocab (single_file "ptb.train.txt" []) "ptb.train.txt" = Raise ValueError /\
  ~ exists word_to_id,
      _build_vocab (single_file "ptb.train.txt" []) "ptb.train.txt" = Ok word_to_id.
Proof.
  split; [reflexivity|]. split; [reflexivity|].
  intros [m Hm]. discriminate Hm.
Qed.

(** C7. Building and encoding are functions of the text alone. Two runs of
    the builder on the same training text give the same mapping, whatever
    the order in which each counter lists its items and whatever else the
    file systems hold; two runs of the encoder on the same file with the
    same vocabulary give the same ids. *)
Theorem build_and_encode_deterministic (fs1 fs2 : filesystem) (f1 f2 : string)
    (text : unicode) (its1 its2 : list (unicode * nat))
    (word_to_id : gmap unicode nat) :
  fs1 f1 = Some text ->
  fs2 f2 = Some text ->
  its1 ≡ₚ items (Counter (words_of_text text)) ->
  its2 ≡ₚ items (Counter (words_of_text text)) ->
  vocab_of_items its1 = vocab_of_items its2 /\
  _build_vocab fs1 f1 = vocab_of_items its1 /\
  _build_vocab fs1 f1 = _build_vocab fs2 f2 /\
  _file_to_word_ids fs1 f1 word_to_id = _file_to_word_ids fs2 f2 word_to_id.
Proof.
  intros H1 H2 Hp1 Hp2.
  assert (Hb : forall fs f, fs f = Some text ->
            _build_vocab fs f = vocab_of_items (items (Counter (words_of_text text)))).
  { intros fs f Hf. unfold _build_vocab, _read_words, GFile_read. by rewrite Hf. }
  split; [|split; [|split]].
  - apply vocab_of_items_Permutation. by rewrite Hp1, Hp2.
  - rewrite (Hb fs1 f1 H1). symmetry. by apply vocab_of_items_Permutation.
  - by rewrite (Hb fs1 f1 H1), (Hb fs2 f2 H2).
  - unfold _file_to_word_ids, _read_words, GFile_read. by rewrite H1, H2.
Qed.

Lemma build_and_encode_deterministic_witness :
  _build_vocab (single_file "train" (u " b a b ")) "train"
    = _build_vocab (fun _ => Some (u " b a b ")) "other" /\
  vocab_of_items (items (Counter (words_of_text (u " b a b "))))
    = vocab_of_items (reverse (items (Counter (words_of_text (u " b a b "))))).
Proof.
  destruct (build_and_encode_deterministic
              (single_file "train" (u " b a b ")) (fun _ => Some (u " b a b "))
              "train" "other" (u " b a b ")
              (items (Counter (words_of_text (u " b a b "))))
              (reverse (items (Counter (words_of_text (u " b a b ")))))
              ∅)
    as (Hv & _ & Hb & _);
    [reflexivity | reflexivity | reflexivity | apply reverse_Permutation |].
  split; [exact Hb | exact Hv].
Defined.

(** * Further properties *)

(** ** Reading words *)

Section read_words.

Lemma split_from_app_space cur a c b :
  isspace c = true -> split_from cur (a ++ c :: b) = split_from cur a ++ split b.
Proof.
  intros Hc. revert cur. induction a as [|x a IH]; intros cur; simpl.
  - rewrite Hc. by destruct cur.
  - destruct (isspace x); [|apply IH].
    destruct cur; [apply IH|]. simpl. f_equal. apply IH.
Qed.

Lemma split_app_space a c b :
  isspace c = true -> split (a ++ c :: b) = split a ++ split b.
Proof. apply split_from_app_space. Qed.

Lemma split_from_word cur w :
  Forall (fun c => isspace c = false) w ->
  split_from cur w = match cur ++ w with [] => [] | _ :: _ => [cur ++ w] end.
Proof.
  intros Hw. revert cur. induction Hw as [|c w Hc Hw IH]; intros cur; simpl.
  - rewrite app_nil_r. by destruct cur.
  - rewrite Hc, IH, <- (assoc_L (++)). done.
Qed.

Lemma split_token w : is_token w -> split w = [w].
Proof.
  intros [Hne Hw]. unfold split. rewrite split_from_word by done.
  simpl. by destruct w.
Qed.

Lemma replace_newline_id new s : 10%N ∉ s -> replace newline new s = s.
Proof.
  unfold newline. induction s as [|c s IH]; intros Hs; [by rewrite replace_nil|].
  apply not_elem_of_cons in Hs as [Hc Hs].
  rewrite replace_char_other by done. by rewrite IH.
Qed.

Lemma nonspace_no_newline s :
  Forall (fun c => isspace c = false) s -> 10%N ∉ s.
Proof.
  intros Hs Hin. eapply Forall_forall in Hs; [|exact Hin]. discriminate Hs.
Qed.

Lemma split_join_space tokens :
  Forall is_token tokens -> split (join_space tokens) = tokens.
Proof.
  induction 1 as [|w rest Hw Hrest IH]; [done|].
  simpl. destruct rest as [|w' rest]; [by apply split_token|].
  rewrite split_app_space by done. rewrite IH. by rewrite split_token.
Qed.

Lemma join_space_no_newline tokens :
  Forall is_token tokens -> 10%N ∉ join_space tokens.
Proof.
  induction 1 as [|w rest [_ Hw] Hrest IH]; [apply not_elem_of_nil|].
  simpl. destruct rest as [|w' rest]; [by apply nonspace_no_newline|].
  rewrite elem_of_app, elem_of_cons. intros [Hin|[Hin|Hin]].
  - by apply (nonspace_no_newline w).
  - discriminate Hin.
  - by apply IH.
Qed.

End read_words.

(** X1. Tokens written to a file separated by single spaces are read back
    unchanged by word mode, provided each token is non-empty and holds no
    whitespace. *)
Theorem words_of_text_join_space (tokens : list unicode) :
  Forall is_token tokens ->
  words_of_text (join_space tokens) = tokens.
Proof.
  intros Htok. unfold words_of_text.
  rewrite replace_newline_id by (by apply join_space_no_newline).
  by apply split_join_space.
Qed.

Lemma words_of_text_join_space_witness :
  Forall is_token [u "the"; u "cat"; u "<unk>"] /\
  words_of_text (u "the cat <unk>") = [u "the"; u "cat"; u "<unk>"].
Proof.
  assert (H : Forall is_token [u "the"; u "cat"; u "<unk>"]).
  { repeat constructor; discriminate. }
  split; [exact H|]. exact (words_of_text_join_space _ H).
Defined.

(** X2. A line feed that stands between two spaces gives exactly one
    "<eos>" token between the words before it and the words after it. *)
Theorem words_of_text_line_break (a b : unicode) :
  words_of_text (a ++ u " " ++ newline ++ u " " ++ b) =
    words_of_text a ++ [u "<eos>"] ++ words_of_text b.
Proof.
  unfold words_of_text, newline.
  change (a ++ u " " ++ [10%N] ++ u " " ++ b)
    with (a ++ [32%N] ++ [10%N] ++ [32%N] ++ b).
  rewrite !replace_char_app.
  assert (replace [10%N] (u "<eos>") [32%N] = [32%N]) as -> by reflexivity.
  assert (replace [10%N] (u "<eos>") [10%N] = u "<eos>") as -> by reflexivity.
  cbn [app].
  rewrite split_app_space by done.
  rewrite split_app_space by done.
  rewrite (split_token (u "<eos>")); [done|].
  split; [discriminate|]. by repeat constructor.
Qed.

(** X3. A line feed is not a separator by itself: two runs of
    non-whitespace characters with only a line feed between them are read
    as one token, with "<eos>" in the middle. *)
Theorem words_of_text_line_break_glued (w1 w2 : unicode) :
  Forall (fun c => isspace c = false) w1 ->
  Forall (fun c => isspace c = false) w2 ->
  words_of_text (w1 ++ newline ++ w2) = [w1 ++ u "<eos>" ++ w2].
Proof.
  intros H1 H2. unfold words_of_text.
  rewrite (replace_char_app 10%N : forall new a b,
             replace newline new (a ++ b) = _).
  rewrite (replace_char_app 10%N : forall new a b,
             replace newline new (a ++ b) = _).
  fold newline.
  rewrite (replace_newline_id _ w1) by (by apply nonspace_no_newline).
  rewrite (replace_newline_id _ w2) by (by apply nonspace_no_newline).
  assert (replace newline (u "<eos>") newline = u "<eos>") as -> by reflexivity.
  apply split_token. split.
  - destruct w1; discriminate.
  - apply Forall_app. split; [done|]. apply Forall_app. split; [|done].
    by repeat constructor.
Qed.

Lemma words_of_text_line_break_glued_witness :
  Forall (fun c => isspace c = false) (u "a") /\
  Forall (fun c => isspace c = false) (u "b") /\
  words_of_text (u "a" ++ newline ++ u "b") = [u "a<eos>b"].
Proof.
  assert (Ha : Forall (fun c => isspace c = false) (u "a")) by (by repeat constructor).
  assert (Hb : Forall (fun c => isspace c = false) (u "b")) by (by repeat constructor).
  split; [exact Ha|]. split; [exact Hb|].
  exact (words_of_text_line_break_glued _ _ Ha Hb).
Defined.

(** ** Windows against the encoded sequence *)

Section windows_of_sequence.

Lemma cell_window_of_sequence (t : list Z) d0 d1 (bs bl n k r j : nat) :
  cell (Tensor2 d0 d1
          (map (fun row => take n (drop k row)) (reshape_rows bs bl t))) r j =
    if decide (r < bs /\ j < n /\ k + j < bl)%nat
    then t !! (r * bl + (k + j))%nat else None.
Proof.
  rewrite (cell_slice_rows _ d0 d1 (Z.of_nat bs) (Z.of_nat bl)).
  case_decide as Hj.
  - rewrite cell_reshape_rows. repeat case_decide; done || lia.
  - case_decide; [lia|done].
Qed.

Lemma mapM_fmap_Ok {A B C : Type} (f : B -> result C) (h : A -> B) (g : A -> C) l :
  Forall (fun a => f (h a) = Ok (g a)) l -> mapM f (h <$> l) = Ok (g <$> l).
Proof.
  induction 1 as [|a l Ha Hl IH]; [done|].
  rewrite !fmap_cons. cbn [mapM]. rewrite Ha, IH. done.
Qed.

Lemma concat_chunks {A : Type} (l : list A) (n e : nat) :
  concat (map (fun i => take n (drop (i * n) l)) (seq 0 e)) = take (e * n) l.
Proof.
  induction e as [|e IH]; [by rewrite take_0|].
  rewrite seq_S, map_app, concat_app, IH. simpl.
  rewrite app_nil_r, take_take_drop. f_equal. lia.
Qed.

End windows_of_sequence.

(** X4. Next-token pairs. For an encoded sequence of int32 values, in the
    window of index i, the input cell of row r and column j is the element
    of the sequence at position r * batch_len + i * num_steps + j, and the
    target cell at the same place is the element that follows it in the
    sequence. *)
Theorem ptb_window_next_token (raw_data : list Z) (bs ns : Z) (b : batches)
    (i : Z) (x y : tensor2) (r j : nat) :
  Forall is_int32 raw_data ->
  ptb_batches raw_data bs ns = Ok b ->
  0 < ns ->
  0 <= i < epoch_size b ->
  ptb_window b i = Ok (x, y) ->
  Z.of_nat r < bs ->
  Z.of_nat j < ns ->
  exists v w,
    raw_data !! (r * Z.to_nat (batch_len b) + Z.to_nat (i * ns) + j)%nat = Some v /\
    raw_data !! S (r * Z.to_nat (batch_len b) + Z.to_nat (i * ns) + j)%nat = Some w /\
    cell x r j = Some v /\
    cell y r j = Some w.
Proof.
  intros Hint Hb Hns Hi Hw Hr Hj.
  apply ptb_batches_inv in Hb as (Hbs & _ & ->).
  rewrite (map_int32_id raw_data Hint) in *. simpl in *.
  set (L := tf_size raw_data) in *. set (bl := L / bs) in *.
  assert (0 <= bl) by (apply Z.div_pos; unfold L, tf_size; lia).
  assert (bs * bl <= L) by (apply Z.mul_div_le; lia).
  assert (i * ns + ns + 1 <= bl) by (by apply window_in_bounds).
  rewrite ptb_window_Ok in Hw; [|lia..|apply length_reshape_rows].
  injection Hw as <- <-.
  set (p := (r * Z.to_nat bl + Z.to_nat (i * ns) + j)%nat).
  assert (Hp : (S p < Z.to_nat (bs * bl))%nat) by (unfold p; nia).
  assert (Hlen : (Z.to_nat (bs * bl) <= length raw_data)%nat)
    by (unfold L, tf_size in *; lia).
  destruct (lookup_lt_is_Some_2 raw_data p) as [v Hv]; [lia|].
  destruct (lookup_lt_is_Some_2 raw_data (S p)) as [w Hw]; [lia|].
  exists v, w. split; [done|]. split; [done|].
  rewrite !cell_window_of_sequence.
  rewrite !decide_True by lia.
  rewrite !lookup_take_lt by (unfold p in Hp; lia).
  split.
  - rewrite <- Hv. f_equal. unfold p. lia.
  - rewrite <- Hw. f_equal. unfold p. lia.
Qed.

Lemma ptb_window_next_token_witness :
  Forall is_int32 [0; 1; 2; 3; 4; 5; 6; 7; 8; 9; 10; 11; 12; 13] /\
  0 < 3 /\ 0 <= 1 < 2 /\ Z.of_nat 1 < 2 /\ Z.of_nat 2 < 3 /\
  exists v w,
    [0; 1; 2; 3; 4; 5; 6; 7; 8; 9; 10; 11; 12; 13] !! 12%nat = Some v /\
    [0; 1; 2; 3; 4; 5; 6; 7; 8; 9; 10; 11; 12; 13] !! 13%nat = Some w /\
    cell (Tensor2 2 3 [[3; 4; 5]; [10; 11; 12]]) 1 2 = Some v /\
    cell (Tensor2 2 3 [[4; 5; 6]; [11; 12; 13]]) 1 2 = Some w.
Proof.
  assert (H32 : Forall is_int32 [0; 1; 2; 3; 4; 5; 6; 7; 8; 9; 10; 11; 12; 13])
    by (repeat constructor; unfold is_int32; lia).
  split; [exact H32|].
  split; [lia|]. split; [lia|]. split; [simpl; lia|]. split; [simpl; lia|].
  apply (ptb_window_next_token [0; 1; 2; 3; 4; 5; 6; 7; 8; 9; 10; 11; 12; 13] 2 3
           (Batches 2 3 7 (Tensor2 2 7 [[0; 1; 2; 3; 4; 5; 6]; [7; 8; 9; 10; 11; 12; 13]]) 2)
           1 (Tensor2 2 3 [[3; 4; 5]; [10; 11; 12]])
           (Tensor2 2 3 [[4; 5; 6]; [11; 12; 13]]) 1 2);
    [exact H32 | reflexivity | lia | simpl; lia | reflexivity | simpl; lia | simpl; lia].
Defined.

(** X5. One epoch reads every grid row from left to right without gap or
    overlap: side by side, the inputs of the epoch are the first
    epoch_size * num_steps columns of the row and the targets are the
    columns 1 .. epoch_size * num_steps; no window raises. *)
Theorem ptb_epoch_covers_rows (raw_data : list Z) (bs ns : Z) (b : batches)
    (r : nat) (row : list Z) :
  ptb_batches raw_data bs ns = Ok b ->
  0 < ns ->
  rows (data b) !! r = Some row ->
  exists ws,
    ptb_epoch b = Ok ws /\
    Z.of_nat (length ws) = Z.max 0 (epoch_size b) /\
    concat (map (fun w => row_of w.1 r) ws)
      = take (Z.to_nat (epoch_size b * ns)) row /\
    concat (map (fun w => row_of w.2 r) ws)
      = take (Z.to_nat (epoch_size b * ns)) (drop 1 row).
Proof.
  intros Hb Hns Hrow.
  apply ptb_batches_inv in Hb as (Hbs & _ & ->). simpl in *.
  set (L := tf_size raw_data) in *. set (bl := L / bs) in *.
  set (grid := reshape_rows _ _ _) in *.
  set (E := (bl - 1) / ns).
  assert (0 <= bl) by (apply Z.div_pos; unfold L, tf_size; lia).
  set (win := fun i : nat =>
    (Tensor2 bs ns
       (map (fun row => take (Z.to_nat ns) (drop (i * Z.to_nat ns) row)) grid),
     Tensor2 bs ns
       (map (fun row => take (Z.to_nat ns) (drop (i * Z.to_nat ns + 1) row)) grid))).
  exists (win <$> seq 0 (Z.to_nat E)).
  split; [|split; [|split]].
  - unfold ptb_epoch, epoch_indices, range_values. simpl. fold E.
    apply mapM_fmap_Ok. apply Forall_forall. intros i Hin.
    apply elem_of_seq in Hin.
    assert (Z.of_nat i * ns + ns + 1 <= bl) by (apply window_in_bounds; lia).
    rewrite ptb_window_Ok; [|lia..|apply length_reshape_rows].
    unfold win.
    rewrite Z2Nat.inj_add, Z2Nat.inj_mul, Nat2Z.id by lia. done.
  - rewrite length_fmap, length_seq. lia.
  - rewrite <- list_fmap_compose.
    replace (Z.to_nat (E * ns)) with (Z.to_nat E * Z.to_nat ns)%nat by nia.
    rewrite <- (concat_chunks row (Z.to_nat ns) (Z.to_nat E)).
    f_equal. apply list_fmap_ext. intros _ i _. simpl.
    unfold row_of. simpl. by rewrite list_lookup_fmap, Hrow.
  - rewrite <- list_fmap_compose.
    replace (Z.to_nat (E * ns)) with (Z.to_nat E * Z.to_nat ns)%nat by nia.
    rewrite <- (concat_chunks (drop 1 row) (Z.to_nat ns) (Z.to_nat E)).
    f_equal. apply list_fmap_ext. intros _ i _. simpl.
    unfold row_of. simpl. rewrite list_lookup_fmap, Hrow. simpl.
    rewrite drop_drop. do 2 f_equal. lia.
Qed.

Lemma ptb_epoch_covers_rows_witness :
  0 < 3 /\
  exists ws,
    ptb_epoch (Batches 2 3 7 (Tensor2 2 7 [[0; 1; 2; 3; 4; 5; 6]; [7; 8; 9; 10; 11; 12; 13]]) 2)
      = Ok ws /\
    concat (map (fun w => row_of w.1 1) ws) = [7; 8; 9; 10; 11; 12] /\
    concat (map (fun w => row_of w.2 1) ws) = [8; 9; 10; 11; 12; 13].
Proof.
  split; [lia|].
  destruct (ptb_epoch_covers_rows [0; 1; 2; 3; 4; 5; 6; 7; 8; 9; 10; 11; 12; 13] 2 3
              (Batches 2 3 7 (Tensor2 2 7 [[0; 1; 2; 3; 4; 5; 6]; [7; 8; 9; 10; 11; 12; 13]]) 2)
              1 [7; 8; 9; 10; 11; 12; 13])
    as (ws & Hws & _ & Hx & Hy); [reflexivity | lia | reflexivity |].
  exists ws. split; [exact Hws|]. split; [exact Hx | exact Hy].
Defined.

(** ** When the producer has windows *)

Section enough_data.


End enough_data.





(** ** The vocabulary as a table *)

Section vocabulary_table.

Lemma size_dict_zip_range (words : list unicode) :
  NoDup words -> size (dict (zip words (range (length words)))) = length words.
Proof.
  intros Hnd. rewrite size_dict.
  - rewrite length_zip_with_l_eq; [done|]. unfold range. by rewrite length_seq.
  - rewrite fst_zip; [done|]. unfold range. by rewrite length_seq.
Qed.

Lemma vocab_of_tokens_nil : vocab_of_tokens [] = Raise ValueError.
Proof. unfold vocab_of_tokens, items, Counter. simpl. by rewrite map_to_list_empty. Qed.

(** A vocabulary that was built is the table of its words: the word at
    index [i] of [words] has id [i]. *)
Lemma vocab_of_tokens_inv data word_to_id :
  vocab_of_tokens data = Ok word_to_id ->
  data <> [] /\
  exists words,
    NoDup words /\
    (forall w, w ∈ words <-> w ∈ data) /\
    StronglySorted
      (fun w1 w2 => tuple_lt (token_key data w1) (token_key data w2) = true) words /\
    (forall w i, word_to_id !! w = Some i <-> words !! i = Some w) /\
    size word_to_id = length words.
Proof.
  intros Hm.
  assert (Hdata : data <> []).
  { intros ->. by rewrite vocab_of_tokens_nil in Hm. }
  split; [done|].
  destruct (vocab_of_items_words data (items (Counter data)) Hdata)
    as (words & Hvocab & _ & Hsorted & Hnd & Helem); [done|].
  unfold vocab_of_tokens in Hm. rewrite Hvocab in Hm. injection Hm as <-.
  exists words. split; [done|]. split; [done|]. split; [done|].
  split; [|by apply size_dict_zip_range].
  intros w i. by apply dict_zip_range_lookup.
Qed.

Lemma StronglySorted_lookup {A : Type} (R : relation A) l (i j : nat) a b :
  StronglySorted R l -> l !! i = Some a -> l !! j = Some b -> (i < j)%nat -> R a b.
Proof.
  intros Hs. revert i j. induction Hs as [|x l Hl IH Hx]; intros i j Ha Hb Hij.
  - done.
  - destruct j as [|j]; [lia|]. simpl in Hb. destruct i as [|i]; simpl in Ha.
    + injection Ha as ->. eapply Forall_forall in Hx; [exact Hx|].
      by eapply list_elem_of_lookup_2.
    + apply (IH i j); [done|done|lia].
Qed.

Lemma tuple_lt_token_key data w1 w2 :
  tuple_lt (token_key data w1) (token_key data w2) = true <->
  (count w2 data < count w1 data)%nat \/
  (count w1 data = count w2 data /\ unicode_lt w1 w2 = true).
Proof.
  unfold tuple_lt, token_key, sort_key. simpl.
  rewrite orb_true_iff, andb_true_iff, Z.ltb_lt, Z.eqb_eq.
  split; (intros [Hlt|[Heq Hu]]; [left; lia|right; split; [lia|done]]).
Qed.

Lemma length_omap_le {A B : Type} (f : A -> option B) l :
  (length (omap f l) <= length l)%nat.
Proof.
  induction l as [|a l IH]; [done|].
  change (omap f (a :: l))
    with (match f a with Some y => y :: omap f l | None => omap f l end).
  destruct (f a); simpl length; lia.
Qed.

Lemma omap_lookup_total (m : gmap unicode nat) (words data : list unicode) :
  (forall w i, m !! w = Some i <-> words !! i = Some w) ->
  (forall w, w ∈ data -> w ∈ words) ->
  length (omap (fun w => m !! w) data) = length data /\
  (fun i => words !! i) <$> omap (fun w => m !! w) data = Some <$> data.
Proof.
  intros Hm. induction data as [|w data IH]; intros Hin; [done|].
  assert (w ∈ words) as Hw by (apply Hin, list_elem_of_here).
  apply list_elem_of_lookup in Hw as [i Hi].
  simpl. rewrite (proj2 (Hm w i) Hi).
  destruct IH as [IH1 IH2].
  { intros w' Hw'. by apply Hin, list_elem_of_further. }
  split; simpl; [f_equal; exact IH1|]. rewrite Hi. f_equal. exact IH2.
Qed.

End vocabulary_table.

(** X8. Ids follow frequency: of two tokens of the vocabulary, one has the
    smaller id exactly when it occurs more often in the training tokens or,
    with equal counts, when it is the smaller string. *)
Theorem vocab_ids_by_frequency (data : list unicode) (word_to_id : gmap unicode nat)
    (w1 w2 : unicode) (i j : nat) :
  vocab_of_tokens data = Ok word_to_id ->
  word_to_id !! w1 = Some i ->
  word_to_id !! w2 = Some j ->
  (i < j)%nat <->
  (count w2 data < count w1 data)%nat \/
  (count w1 data = count w2 data /\ unicode_lt w1 w2 = true).
Proof.
  intros Hm H1 H2.
  apply vocab_of_tokens_inv in Hm as (_ & words & Hnd & _ & Hs & Hl & _).
  apply Hl in H1, H2. rewrite <- tuple_lt_token_key. split.
  - intros Hij. exact (StronglySorted_lookup _ words i j _ _ Hs H1 H2 Hij).
  - intros Hlt. destruct (Nat.lt_trichotomy i j) as [?|[->|Hji]]; [done| |].
    + assert (w1 = w2) as -> by congruence.
      apply tuple_lt_asym in Hlt as Hlt'. congruence.
    + pose proof (StronglySorted_lookup _ words j i _ _ Hs H2 H1 Hji) as Hlt'.
      simpl in Hlt'. apply tuple_lt_asym in Hlt. congruence.
Qed.

Lemma vocab_ids_by_frequency_witness :
  exists word_to_id,
    vocab_of_tokens [u "b"; u "a"; u "b"] = Ok word_to_id /\
    word_to_id !! u "b" = Some 0%nat /\
    word_to_id !! u "a" = Some 1%nat /\
    ((0 < 1)%nat <->
     (count (u "a") [u "b"; u "a"; u "b"] < count (u "b") [u "b"; u "a"; u "b"])%nat \/
     (count (u "b") [u "b"; u "a"; u "b"] = count (u "a") [u "b"; u "a"; u "b"] /\
      unicode_lt (u "b") (u "a") = true)).
Proof.
  destruct (vocab_of_tokens [u "b"; u "a"; u "b"]) as [m|e] eqn:Hm;
    [|vm_compute in Hm; discriminate Hm].
  exists m. split; [reflexivity|].
  assert (Hb : m !! u "b" = Some 0%nat).
  { vm_compute in Hm. injection Hm as <-. reflexivity. }
  assert (Ha : m !! u "a" = Some 1%nat).
  { vm_compute in Hm. injection Hm as <-. reflexivity. }
  split; [exact Hb|]. split; [exact Ha|].
  exact (vocab_ids_by_frequency _ m _ _ _ _ Hm Hb Ha).
Defined.

(** X9. The training tokens are encoded without loss: with the vocabulary
    built from them, every token is given an id, and reading the ids back
    in the table of words gives the tokens again. *)
Theorem encode_training_tokens_lossless (data : list unicode)
    (word_to_id : gmap unicode nat) :
  vocab_of_tokens data = Ok word_to_id ->
  exists words ids,
    encode_tokens word_to_id data = Ok ids /\
    length ids = length data /\
    length words = size word_to_id /\
    (fun id => words !! id) <$> ids = Some <$> data.
Proof.
  intros Hm.
  apply vocab_of_tokens_inv in Hm as (_ & words & Hnd & Helem & _ & Hl & Hsize).
  exists words, (omap (fun w => word_to_id !! w) data).
  split; [apply encode_tokens_omap|].
  destruct (omap_lookup_total word_to_id words data Hl) as [Hlen Hdec].
  { intros w Hw. by apply Helem. }
  done.
Qed.

Lemma encode_training_tokens_lossless_witness :
  exists (word_to_id : gmap unicode nat) (words : list unicode) (ids : list nat),
    vocab_of_tokens [u "b"; u "a"; u "b"] = Ok word_to_id /\
    encode_tokens word_to_id [u "b"; u "a"; u "b"] = Ok ids /\
    (fun id => words !! id) <$> ids = Some <$> [u "b"; u "a"; u "b"].
Proof.
  destruct (vocab_of_tokens [u "b"; u "a"; u "b"]) as [m|e] eqn:Hm;
    [|vm_compute in Hm; discriminate Hm].
  destruct (encode_training_tokens_lossless _ m Hm) as (words & ids & He & _ & _ & Hd).
  exists m, words, ids. split; [reflexivity|]. split; [exact He | exact Hd].
Defined.

(** X10. Whatever is encoded, the ids stay below the size of the
    vocabulary, and there are at most as many ids as tokens. *)
Theorem encode_ids_below_vocabulary (data data' : list unicode)
    (word_to_id : gmap unicode nat) (ids : list nat) :
  vocab_of_tokens data = Ok word_to_id ->
  encode_tokens word_to_id data' = Ok ids ->
  Forall (fun id => (id < size word_to_id)%nat) ids /\
  (length ids <= length data')%nat.
Proof.
  intros Hm He. rewrite encode_tokens_omap in He. injection He as <-.
  apply vocab_of_tokens_inv in Hm as (_ & words & _ & _ & _ & Hl & ->).
  split.
  - apply Forall_forall. intros i Hi.
    apply list_elem_of_omap in Hi as (w & _ & Hw).
    apply Hl in Hw. by apply lookup_lt_Some in Hw.
  - apply length_omap_le.
Qed.

Lemma encode_ids_below_vocabulary_witness :
  exists word_to_id ids,
    vocab_of_tokens [u "b"; u "a"; u "b"] = Ok word_to_id /\
    encode_tokens word_to_id [u "a"; u "c"; u "b"] = Ok ids /\
    Forall (fun id => (id < size word_to_id)%nat) ids.
Proof.
  destruct (vocab_of_tokens [u "b"; u "a"; u "b"]) as [m|e] eqn:Hm;
    [|vm_compute in Hm; discriminate Hm].
  destruct (encode_tokens m [u "a"; u "c"; u "b"]) as [ids|e] eqn:He;
    [|rewrite encode_tokens_omap in He; discriminate He].
  exists m, ids. split; [reflexivity|]. split; [exact He|].
  exact (proj1 (encode_ids_below_vocabulary _ _ m ids Hm He)).
Defined.

(** ** Loading the three splits *)

Section raw_data.

Variables (fs : filesystem) (data_path : option string) (level : string).
Hypothesis level_known : level = "word"%string \/ level = "char"%string.

(** [ptb_raw_data] at a known level, with the reads and the token lists
    spelled out. *)
Lemma ptb_raw_data_known_level :
  ptb_raw_data fs data_path level =
    (train_path ← os_path_join data_path "ptb.train.txt";
     valid_path ← os_path_join data_path "ptb.valid.txt";
     test_path ← os_path_join data_path "ptb.test.txt";
     text ← GFile_read fs train_path;
     dictionary ← vocab_of_tokens (tokens_of_level level text);
     train_text ← GFile_read fs train_path;
     train_data ← encode_tokens dictionary (tokens_of_level level train_text);
     valid_text ← GFile_read fs valid_path;
     valid_data ← encode_tokens dictionary (tokens_of_level level valid_text);
     test_text ← GFile_read fs test_path;
     test_data ← encode_tokens dictionary (tokens_of_level level test_text);
     mret (train_data, valid_data, test_data, size dictionary)).
Proof using level_known.
  unfold ptb_raw_data, tokens_of_level.
  destruct level_known as [-> | ->]; simpl.
  - unfold _build_vocab, _file_to_word_ids, _read_words.
    destruct (os_path_join data_path "ptb.train.txt") as [tp|]; [|done].
    destruct (os_path_join data_path "ptb.valid.txt") as [vp|]; [|done].
    destruct (os_path_join data_path "ptb.test.txt") as [sp|]; [|done]. simpl.
    destruct (GFile_read fs tp) as [text|]; [|done]. simpl.
    destruct (vocab_of_tokens (words_of_text text)) as [m|]; [|done]. simpl.
    destruct (encode_tokens m (words_of_text text)); [|done]. simpl.
    destruct (GFile_read fs vp) as [vtext|]; [|done]. simpl.
    destruct (encode_tokens m (words_of_text vtext)); [|done]. simpl.
    destruct (GFile_read fs sp) as [stext|]; [|done]. simpl.
    by destruct (encode_tokens m (words_of_text stext)).
  - unfold _build_char, _file_to_char_ids, _read_chars.
    destruct (os_path_join data_path "ptb.train.txt") as [tp|]; [|done].
    destruct (os_path_join data_path "ptb.valid.txt") as [vp|]; [|done].
    destruct (os_path_join data_path "ptb.test.txt") as [sp|]; [|done]. simpl.
    destruct (GFile_read fs tp) as [text|]; [|done]. simpl.
    destruct (vocab_of_tokens (iter_str (chars_of_text text))) as [m|]; [|done]. simpl.
    destruct (encode_tokens m (iter_str (chars_of_text text))); [|done]. simpl.
    destruct (GFile_read fs vp) as [vtext|]; [|done]. simpl.
    destruct (encode_tokens m (iter_str (chars_of_text vtext))); [|done]. simpl.
    destruct (GFile_read fs sp) as [stext|]; [|done]. simpl.
    by destruct (encode_tokens m (iter_str (chars_of_text stext))).
Qed.

End raw_data.

Lemma ptb_raw_data_Ok_level fs data_path level r :
  ptb_raw_data fs data_path level = Ok r ->
  level = "word"%string \/ level = "char"%string.
Proof.
  unfold ptb_raw_data.
  destruct (String.eqb_spec level "word"); [by left|].
  destruct (String.eqb_spec level "char"); [by right|]. done.
Qed.

Lemma GFile_read_Ok fs filename text :
  GFile_read fs filename = Ok text <-> fs filename = Some text.
Proof. unfold GFile_read. destruct (fs filename); split; congruence. Qed.

Lemma elem_of_encoded_training (data : list unicode) (m : gmap unicode nat) (i : nat) :
  vocab_of_tokens data = Ok m ->
  i ∈ omap (fun w => m !! w) data <-> (i < size m)%nat.
Proof.
  intros Hm.
  apply vocab_of_tokens_inv in Hm as (_ & words & _ & Helem & _ & Hl & ->).
  rewrite list_elem_of_omap. split.
  - intros (w & _ & Hw). apply Hl in Hw. by apply lookup_lt_Some in Hw.
  - intros Hi. destruct (lookup_lt_is_Some_2 words i Hi) as [w Hw].
    exists w. split; [|by apply Hl].
    apply Helem. by eapply list_elem_of_lookup_2.
Qed.

Lemma encode_tokens_ids_lt (data data' : list unicode) (m : gmap unicode nat) ids :
  vocab_of_tokens data = Ok m ->
  encode_tokens m data' = Ok ids ->
  Forall (fun id => (id < size m)%nat) ids.
Proof.
  intros Hm He. rewrite encode_tokens_omap in He. injection He as <-.
  apply vocab_of_tokens_inv in Hm as (_ & words & _ & _ & _ & Hl & ->).
  apply Forall_forall. intros i Hi.
  apply list_elem_of_omap in Hi as (w & _ & Hw).
  apply Hl in Hw. by apply lookup_lt_Some in Hw.
Qed.

(** X11. What [ptb_raw_data] returns: the vocabulary size is positive, the
    training ids are exactly the ids 0 .. vocabulary-1 (each of them
    occurs), and the validation and test ids are all below the vocabulary
    size. *)
Theorem ptb_raw_data_ids (fs : filesystem) (data_path : option string)
    (level : string) (train_data valid_data test_data : list nat) (vocabulary : nat) :
  ptb_raw_data fs data_path level
    = Ok (train_data, valid_data, test_data, vocabulary) ->
  (0 < vocabulary)%nat /\
  (forall id, id ∈ train_data <-> (id < vocabulary)%nat) /\
  Forall (fun id => (id < vocabulary)%nat) valid_data /\
  Forall (fun id => (id < vocabulary)%nat) test_data.
Proof.
  intros H. pose proof (ptb_raw_data_Ok_level _ _ _ _ H) as Hlevel.
  rewrite ptb_raw_data_known_level in H by done.
  inv_bind H. injection H as <- <- <- <-.
  apply GFile_read_Ok in Ha2, Ha4. rewrite Ha2 in Ha4. injection Ha4 as <-.
  assert (Hin : forall id, id ∈ a5 <-> (id < size a3)%nat).
  { intros id. rewrite encode_tokens_omap in Ha5. injection Ha5 as <-.
    by apply elem_of_encoded_training. }
  split; [|split; [done|split]].
  - apply vocab_of_tokens_inv in Ha3 as (Hne & words & _ & Helem & _ & _ & ->).
    destruct (tokens_of_level level a2) as [|w ws]; [done|].
    assert (w ∈ words) as Hw by (apply Helem, list_elem_of_here).
    destruct words; [by apply elem_of_nil in Hw|simpl; lia].
  - by apply (encode_tokens_ids_lt _ _ _ _ Ha3 Ha7).
  - by apply (encode_tokens_ids_lt _ _ _ _ Ha3 Ha9).
Qed.

Lemma ptb_raw_data_ids_witness :
  ptb_raw_data (fun _ => Some (u " a b " ++ newline ++ u " a c ")) (Some "data"%string) "word"
    = Ok ([0; 2; 1; 0; 3], [0; 2; 1; 0; 3], [0; 2; 1; 0; 3], 4)%nat /\
  (0 < 4)%nat /\
  (forall id, id ∈ [0; 2; 1; 0; 3]%nat <-> (id < 4)%nat).
Proof.
  assert (H : ptb_raw_data (fun _ => Some (u " a b " ++ newline ++ u " a c "))
                (Some "data"%string) "word"
              = Ok ([0; 2; 1; 0; 3], [0; 2; 1; 0; 3], [0; 2; 1; 0; 3], 4)%nat)
    by (vm_compute; reflexivity).
  split; [exact H|].
  destruct (ptb_raw_data_ids _ _ _ _ _ _ _ H) as (Hv & Hin & _).
  split; [exact Hv | exact Hin].
Defined.

(** X12. The vocabulary comes from the training file alone: two calls that
    find the same training file return the same training ids and the same
    vocabulary size, whatever the validation and test files hold. *)
Theorem ptb_raw_data_vocabulary_from_training (fs1 fs2 : filesystem)
    (data_path : option string) (level train_path : string)
    (train1 valid1 test1 train2 valid2 test2 : list nat) (vocabulary1 vocabulary2 : nat) :
  os_path_join data_path "ptb.train.txt" = Ok train_path ->
  fs1 train_path = fs2 train_path ->
  ptb_raw_data fs1 data_path level = Ok (train1, valid1, test1, vocabulary1) ->
  ptb_raw_data fs2 data_path level = Ok (train2, valid2, test2, vocabulary2) ->
  train1 = train2 /\ vocabulary1 = vocabulary2.
Proof.
  intros Hpath Hfs H1 H2.
  pose proof (ptb_raw_data_Ok_level _ _ _ _ H1) as Hlevel.
  rewrite ptb_raw_data_known_level in H1, H2 by done.
  rewrite Hpath in H1, H2. simpl in H1, H2.
  inv_bind H1. injection H1 as <- <- <- <-.
  inv_bind H2. injection H2 as <- <- <- <-.
  apply GFile_read_Ok in Ha1, Ha3, Ha11, Ha13.
  assert (a1 = a11) as <- by congruence.
  assert (a3 = a1) as -> by congruence.
  assert (a13 = a1) as -> by congruence.
  assert (a2 = a12) as <- by congruence.
  split; [congruence|done].
Qed.

Lemma ptb_raw_data_vocabulary_from_training_witness :
  ptb_raw_data (fun p => if String.eqb p "data/ptb.train.txt" then Some (u "a b a")
                         else Some (u "b"))
    (Some "data"%string) "word" = Ok ([0; 1; 0], [1], [1], 2)%nat /\
  ptb_raw_data (fun p => if String.eqb p "data/ptb.train.txt" then Some (u "a b a")
                         else Some (u "a c"))
    (Some "data"%string) "word" = Ok ([0; 1; 0], [0], [0], 2)%nat /\
  [0; 1; 0]%nat = [0; 1; 0]%nat /\ 2%nat = 2%nat.
Proof.
  assert (H1 : ptb_raw_data
                 (fun p => if String.eqb p "data/ptb.train.txt" then Some (u "a b a")
                           else Some (u "b"))
                 (Some "data"%string) "word" = Ok ([0; 1; 0], [1], [1], 2)%nat)
    by (vm_compute; reflexivity).
  assert (H2 : ptb_raw_data
                 (fun p => if String.eqb p "data/ptb.train.txt" then Some (u "a b a")
                           else Some (u "a c"))
                 (Some "data"%string) "word" = Ok ([0; 1; 0], [0], [0], 2)%nat)
    by (vm_compute; reflexivity).
  split; [exact H1|]. split; [exact H2|].
  exact (ptb_raw_data_vocabulary_from_training
           (fun p => if String.eqb p "data/ptb.train.txt" then Some (u "a b a")
                     else Some (u "b"))
           (fun p => if String.eqb p "data/ptb.train.txt" then Some (u "a b a")
                     else Some (u "a c"))
           (Some "data"%string) "word"
           "data/ptb.train.txt" _ _ _ _ _ _ _ _ eq_refl eq_refl H1 H2).
Defined.

Lemma ptb_raw_data_training_file_cases (fs : filesystem) (data_path : option string)
    (level train_path : string) :
  level = "word"%string \/ level = "char"%string ->
  os_path_join data_path "ptb.train.txt" = Ok train_path ->
  match fs train_path with
  | None => ptb_raw_data fs data_path level = Raise NotFoundError
  | Some text =>
      tokens_of_level level text = [] ->
      ptb_raw_data fs data_path level = Raise ValueError
  end.
Proof.
  intros Hlevel Hpath. rewrite ptb_raw_data_known_level by done.
  rewrite Hpath.
  assert (exists p, data_path = Some p) as [p ->].
  { destruct data_path; [eauto|discriminate]. }
  assert (forall name, exists q, os_path_join (Some p) name = Ok q) as Hjoin.
  { intros name. unfold os_path_join. repeat case_match; eauto. }
  destruct (Hjoin "ptb.valid.txt") as [vp ->].
  destruct (Hjoin "ptb.test.txt") as [sp ->].
  cbn [mbind result_bind].
  unfold GFile_read. destruct (fs train_path) as [text|]; [|done].
  intros Htok. cbn [mbind result_bind]. by rewrite Htok, vocab_of_tokens_nil.
Qed.

(** X13. At a known level, a training file without any token makes
    [ptb_raw_data] raise [ValueError] and return nothing, whatever the
    validation and test files hold. *)
Theorem ptb_raw_data_empty_training_file (fs : filesystem) (data_path : option string)
    (level train_path : string) (text : unicode) :
  level = "word"%string \/ level = "char"%string ->
  os_path_join data_path "ptb.train.txt" = Ok train_path ->
  fs train_path = Some text ->
  tokens_of_level level text = [] ->
  ptb_raw_data fs data_path level = Raise ValueError.
Proof.
  intros Hlevel Hpath Hfs Htok.
  pose proof (ptb_raw_data_training_file_cases fs data_path level train_path
                Hlevel Hpath) as H.
  rewrite Hfs in H. by apply H.
Qed.

Lemma ptb_raw_data_empty_training_file_witness :
  ("word"%string = "word"%string \/ "word"%string = "char"%string) /\
  tokens_of_level "word" (u "  " ++ [9%N]) = [] /\
  ptb_raw_data (fun p => if String.eqb p "data/ptb.train.txt"
                         then Some (u "  " ++ [9%N]) else Some (u "a b"))
    (Some "data"%string) "word" = Raise ValueError.
Proof.
  split; [by left|]. split; [reflexivity|].
  apply (ptb_raw_data_empty_training_file
           (fun p => if String.eqb p "data/ptb.train.txt"
                     then Some (u "  " ++ [9%N]) else Some (u "a b"))
           (Some "data"%string) "word" "data/ptb.train.txt" (u "  " ++ [9%N]));
    [by left | reflexivity | reflexivity | reflexivity].
Defined.

(** X14. At a known level, a missing training file makes [ptb_raw_data]
    raise the not-found error of the read and return nothing. *)
Theorem ptb_raw_data_missing_training_file (fs : filesystem)
    (data_path : option string) (level train_path : string) :
  level = "word"%string \/ level = "char"%string ->
  os_path_join data_path "ptb.train.txt" = Ok train_path ->
  fs train_path = None ->
  ptb_raw_data fs data_path level = Raise NotFoundError.
Proof.
  intros Hlevel Hpath Hfs.
  pose proof (ptb_raw_data_training_file_cases fs data_path level train_path
                Hlevel Hpath) as H.
  by rewrite Hfs in H.
Qed.

Lemma ptb_raw_data_missing_training_file_witness :
  ("char"%string = "word"%string \/ "char"%string = "char"%string) /\
  ptb_raw_data (fun _ => None) (Some "data"%string) "char" = Raise NotFoundError.
Proof.
  split; [by right|].
  apply (ptb_raw_data_missing_training_file (fun _ => None)
           (Some "data"%string) "char" "data/ptb.train.txt");
    [by right | reflexivity | reflexivity].
Defined.

(** ** The character vocabulary *)

Section char_vocabulary.

Lemma replace_nonempty old new s :
  old <> [] -> new <> [] -> s <> [] -> replace old new s <> [].
Proof.
  intros Hold Hnew Hs. destruct s as [|c s]; [done|].
  destruct (startswith old (c :: s)) eqn:E.
  - rewrite replace_match by done. by destruct new.
  - by rewrite replace_cons.
Qed.

Lemma chars_of_text_nonempty text : text <> [] -> chars_of_text text <> [].
Proof.
  intros Htext. unfold chars_of_text.
  apply replace_nonempty; [done|done|]. by apply replace_nonempty.
Qed.

Lemma elem_of_iter_str w s : w ∈ iter_str s <-> exists c, w = [c] /\ c ∈ s.
Proof. unfold iter_str. rewrite list_elem_of_fmap. naive_solver. Qed.

End char_vocabulary.

(** X15. The character vocabulary of a non-empty training text: the
    builder gives an id to exactly the one-character strings of the
    characters of the text as character mode reads it; the line feed is
    never among them; the ids are exactly those below the size of the
    vocabulary. *)
Theorem build_char_ids (fs : filesystem) (filename : string) (text : unicode) :
  fs filename = Some text ->
  text <> [] ->
  exists char_to_id,
    _build_char fs filename = Ok char_to_id /\
    (forall w, is_Some (char_to_id !! w) <-> exists c, w = [c] /\ c ∈ chars_of_text text) /\
    char_to_id !! newline = None /\
    (forall id, (exists w, char_to_id !! w = Some id) <-> (id < size char_to_id)%nat).
Proof.
  intros Hfs Htext.
  assert (Hdata : iter_str (chars_of_text text) <> []).
  { pose proof (chars_of_text_nonempty text Htext). by destruct (chars_of_text text). }
  destruct (vocab_of_tokens (iter_str (chars_of_text text))) as [m|e] eqn:Hm.
  - exists m. split.
    { unfold _build_char, _read_chars, GFile_read. by rewrite Hfs. }
    apply vocab_of_tokens_inv in Hm as (_ & words & _ & Helem & _ & Hl & Hsize).
    assert (Hsome : forall w, is_Some (m !! w) <-> w ∈ iter_str (chars_of_text text)).
    { intros w. rewrite <- Helem, list_elem_of_lookup. split.
      - intros [i Hi]. exists i. by apply Hl.
      - intros [i Hi]. exists i. by apply Hl. }
    split; [|split].
    + intros w. by rewrite Hsome, elem_of_iter_str.
    + apply eq_None_not_Some. rewrite Hsome, elem_of_iter_str.
      intros (c & [= <-] & Hc). by apply (chars_of_text_no_newline text).
    + intros i. rewrite Hsize. split.
      * intros [w Hw]. apply Hl in Hw. by apply lookup_lt_Some in Hw.
      * intros Hi. destruct (lookup_lt_is_Some_2 words i Hi) as [w Hw].
        exists w. by apply Hl.
  - exfalso. unfold vocab_of_tokens in Hm.
    destruct (vocab_of_items_words _ (items (Counter (iter_str (chars_of_text text))))
                Hdata) as (words & Hv & _); [done|].
    rewrite Hv in Hm. discriminate Hm.
Qed.

Lemma build_char_ids_witness :
  single_file "ptb.train.txt" (u "ab" ++ newline ++ u "a") "ptb.train.txt"
    = Some (u "ab" ++ newline ++ u "a") /\
  u "ab" ++ newline ++ u "a" <> [] /\
  exists char_to_id,
    _build_char (single_file "ptb.train.txt" (u "ab" ++ newline ++ u "a")) "ptb.train.txt"
      = Ok char_to_id /\
    char_to_id !! newline = None.
Proof.
  split; [reflexivity|]. split; [discriminate|].
  destruct (build_char_ids (single_file "ptb.train.txt" (u "ab" ++ newline ++ u "a"))
              "ptb.train.txt" (u "ab" ++ newline ++ u "a"))
    as (m & Hm & _ & Hnl & _); [reflexivity | discriminate |].
  exists m. split; [exact Hm | exact Hnl].
Defined.

(** ** A vocabulary read from a file *)

Section existing_vocabulary.

Lemma readlines_from_line cur line rest :
  10%N ∉ line ->
  readlines_from cur (line ++ 10%N :: rest) = (cur ++ line ++ [10%N]) :: readlines rest.
Proof.
  revert cur. induction line as [|c line IH]; intros cur Hline; simpl.
  - done.
  - apply not_elem_of_cons in Hline as [Hc Hline].
    destruct (N.eqb_spec c 10); [congruence|].
    rewrite IH by done. by rewrite <- (assoc_L (++)).
Qed.

Lemma lstrip_newline_head c s : c <> 10%N -> lstrip_newline (c :: s) = c :: s.
Proof. intros Hc. simpl. destruct (N.eqb_spec c 10); [congruence|done]. Qed.

Lemma lstrip_newline_id s : 10%N ∉ s -> lstrip_newline s = s.
Proof.
  destruct s as [|c s]; [done|]. intros [Hc _]%not_elem_of_cons.
  by apply lstrip_newline_head.
Qed.

Lemma strip_newline_line body :
  body <> [] -> 10%N ∉ body -> strip_newline (body ++ [10%N]) = body.
Proof.
  intros Hne Hbody. unfold strip_newline.
  destruct body as [|c body]; [done|].
  apply not_elem_of_cons in Hbody as Hc. destruct Hc as [Hc _].
  change ((c :: body) ++ [10%N]) with (c :: (body ++ [10%N])).
  rewrite lstrip_newline_head by done.
  change (c :: (body ++ [10%N])) with ((c :: body) ++ [10%N]).
  rewrite reverse_snoc. simpl.
  rewrite lstrip_newline_id by (by rewrite elem_of_reverse).
  apply reverse_involutive.
Qed.

Lemma split_comma_from_field cur s :
  44%N ∉ s -> split_comma_from cur s = [cur ++ s].
Proof.
  revert cur. induction s as [|c s IH]; intros cur Hs; simpl.
  - by rewrite app_nil_r.
  - apply not_elem_of_cons in Hs as [Hc Hs].
    destruct (N.eqb_spec c 44); [congruence|].
    rewrite IH by done. by rewrite <- (assoc_L (++)).
Qed.

Lemma split_comma_from_comma cur a b :
  44%N ∉ a -> split_comma_from cur (a ++ 44%N :: b) = (cur ++ a) :: split_comma b.
Proof.
  revert cur. induction a as [|c a IH]; intros cur Ha; simpl.
  - by rewrite app_nil_r.
  - apply not_elem_of_cons in Ha as [Hc Ha].
    destruct (N.eqb_spec c 44); [congruence|].
    rewrite IH by done. by rewrite <- (assoc_L (++)).
Qed.

Lemma elem_of_lstrip_newline c s : c ∈ lstrip_newline s -> c ∈ s.
Proof.
  induction s as [|x s IH]; [done|]. simpl.
  destruct (x =? 10)%N; [|done]. intros Hc. by apply list_elem_of_further, IH.
Qed.

Lemma elem_of_strip_newline c s : c ∈ strip_newline s -> c ∈ s.
Proof.
  unfold strip_newline. rewrite elem_of_reverse. intros Hc.
  apply elem_of_lstrip_newline in Hc. rewrite elem_of_reverse in Hc.
  by apply elem_of_lstrip_newline.
Qed.

Lemma dict_int_lookup_last l1 k v l2 :
  k ∉ l2.*1 -> dict_int (l1 ++ (k, v) :: l2) !! k = Some v.
Proof.
  unfold dict_int. rewrite foldl_app. simpl.
  generalize (foldl (fun d kv => <[kv.1:=kv.2]> d) (∅ : gmap unicode Z) l1).
  intros m Hk.
  assert (H : forall m' : gmap unicode Z, m' !! k = Some v ->
            foldl (fun d kv => <[kv.1:=kv.2]> d) m' l2 !! k = Some v).
  { induction l2 as [|[k' v'] l2 IH]; intros m' Hm'; [done|].
    rewrite fmap_cons in Hk. apply not_elem_of_cons in Hk as [Hne Hk].
    simpl. apply IH; [done|]. by rewrite lookup_insert_ne by done. }
  apply H. apply lookup_insert_eq.
Qed.

Variable py_int : unicode -> option Z.

Abbreviation well_formed := (well_formed_entry py_int).

Lemma is_field_elim s :
  is_field s ->
  (44%N ∉ s) /\ (10%N ∉ s) /\ forallb (fun c => (c <? 128)%N) s = true.
Proof.
  intros Hs. split; [|split].
  - intros Hin. eapply Forall_forall in Hs; [|exact Hin]. by destruct Hs as (_ & ? & _).
  - intros Hin. eapply Forall_forall in Hs; [|exact Hin]. by destruct Hs as (_ & _ & ? & _).
  - apply forallb_forall. intros c Hc. apply list_elem_of_In in Hc.
    eapply Forall_forall in Hs; [|exact Hc]. destruct Hs as (Hlt & _).
    by apply N.ltb_lt.
Qed.

Lemma readlines_vocab_lines entries :
  Forall well_formed entries ->
  readlines (concat (map (fun e => vocab_line e.1.1 e.1.2) entries))
    = map (fun e => vocab_line e.1.1 e.1.2) entries.
Proof.
  induction 1 as [|[[tok rank] n] entries (Ht & Hr & _) _ IH]; [done|].
  apply is_field_elim in Ht as (Ht1 & Ht2 & _).
  apply is_field_elim in Hr as (Hr1 & Hr2 & _).
  simpl in *. unfold vocab_line at 1. unfold readlines.
  replace ((tok ++ [44%N] ++ rank ++ [10%N]) ++
           concat (map (fun e => vocab_line e.1.1 e.1.2) entries))
    with ((tok ++ [44%N] ++ rank) ++ 10%N ::
          concat (map (fun e => vocab_line e.1.1 e.1.2) entries))
    by (by rewrite <- !(assoc_L (++))).
  rewrite readlines_from_line.
  - rewrite IH. unfold vocab_line. simpl. by rewrite <- !(assoc_L (++)).
  - rewrite !elem_of_app, list_elem_of_singleton. intros [?|[?|?]]; done.
Qed.

Lemma fields_vocab_line e :
  well_formed e ->
  line_fields (vocab_line e.1.1 e.1.2) = inr [e.1.1; e.1.2].
Proof.
  destruct e as [[tok rank] n]. intros (Ht & Hr & _). simpl in *.
  apply is_field_elim in Ht as (Ht1 & Ht2 & Ht3).
  apply is_field_elim in Hr as (Hr1 & Hr2 & Hr3).
  unfold line_fields, ascii_decode.
  assert (forallb (fun c => (c <? 128)%N) (vocab_line tok rank) = true) as ->.
  { unfold vocab_line. rewrite !forallb_app, Ht3, Hr3. done. }
  f_equal. unfold vocab_line.
  replace (tok ++ [44%N] ++ rank ++ [10%N]) with ((tok ++ [44%N] ++ rank) ++ [10%N])
    by (by rewrite <- !(assoc_L (++))).
  rewrite strip_newline_line.
  - unfold split_comma. simpl.
    rewrite split_comma_from_comma by done. unfold split_comma.
    by rewrite split_comma_from_field.
  - by destruct tok.
  - rewrite !elem_of_app, list_elem_of_singleton. intros [?|[?|?]]; done.
Qed.

Lemma lines_fields_well_formed entries :
  Forall well_formed entries ->
  lines_fields (map (fun e => vocab_line e.1.1 e.1.2) entries)
    = inr (map (fun e => [e.1.1; e.1.2]) entries).
Proof.
  induction 1 as [|e entries He _ IH]; [done|].
  simpl. by rewrite (fields_vocab_line e He), IH.
Qed.

Lemma lines_fields_inr lines wlist :
  lines_fields lines = inr wlist ->
  wlist = map (fun ll => split_comma (strip_newline ll)) lines.
Proof.
  revert wlist. induction lines as [|ll lines IH]; intros wlist H; simpl in H.
  - by injection H as <-.
  - unfold line_fields, ascii_decode in H.
    destruct (forallb _ ll); [|done].
    destruct (lines_fields lines) as [e|xs]; [done|].
    injection H as <-. simpl. f_equal. by apply IH.
Qed.

Lemma vocab_entries_well_formed entries :
  Forall well_formed entries ->
  vocab_entries py_int (map (fun e => [e.1.1; e.1.2]) entries)
    = inr (map (fun e => (e.1.1, e.2 - 1)) entries).
Proof.
  induction 1 as [|[[tok rank] n] entries (_ & _ & Hint) _ IH]; [done|].
  simpl in *. by rewrite Hint, IH.
Qed.

Lemma vocab_entries_fields wlist kvs :
  vocab_entries py_int wlist = inr kvs ->
  Forall (fun x => (2 <= length x)%nat) wlist.
Proof.
  revert kvs. induction wlist as [|x wlist IH]; intros kvs H; [constructor|].
  simpl in H. destruct (vocab_entry py_int x) as [e|kv] eqn:E; [done|].
  destruct (vocab_entries py_int wlist) as [e|kvs'] eqn:E'; [done|].
  constructor; [|by eapply IH].
  destruct x as [|x0 [|x1 x]]; simpl in *; (done || lia).
Qed.

End existing_vocabulary.

(** X16. Loading a vocabulary file. For a file whose lines are
    "token,rank" entries (the token and the rank are made of ASCII
    characters other than the comma, the line feed and the carriage return,
    and [int] reads the rank), [_build_vocab_existing] returns the mapping
    of the entries with every rank lowered by one; a token listed more than
    once keeps the rank of its last line. *)
Theorem build_vocab_existing_entries (py_int : unicode -> option Z)
    (files : string -> option unicode) (filename : string)
    (before after : list (unicode * unicode * Z)) (token rank : unicode) (n : Z) :
  Forall (well_formed_entry py_int) (before ++ (token, rank, n) :: after) ->
  token ∉ after.*1.*1 ->
  files filename
    = Some (concat (map (fun e => vocab_line e.1.1 e.1.2)
                      (before ++ (token, rank, n) :: after))) ->
  exists word_to_id,
    _build_vocab_existing py_int files filename = inr word_to_id /\
    word_to_id
      = dict_int (map (fun e => (e.1.1, e.2 - 1)) (before ++ (token, rank, n) :: after)) /\
    word_to_id !! token = Some (n - 1).
Proof.
  intros Hwf Hlast Hfile. eexists. split; [|split; [reflexivity|]].
  - unfold _build_vocab_existing. rewrite Hfile.
    rewrite (readlines_vocab_lines py_int) by done.
    rewrite (lines_fields_well_formed py_int) by done.
    by rewrite (vocab_entries_well_formed py_int).
  - rewrite map_app. simpl. apply dict_int_lookup_last.
    intros Hin. apply Hlast.
    apply list_elem_of_fmap in Hin as ([tok v] & Heq & Hin). simpl in Heq. subst tok.
    apply list_elem_of_fmap in Hin as ([[tok' rank'] n'] & [= -> ->] & Hin).
    apply list_elem_of_fmap. exists (tok', rank'). split; [done|].
    apply list_elem_of_fmap. by exists (tok', rank', n').
Qed.

Lemma build_vocab_existing_entries_witness :
  exists word_to_id,
    _build_vocab_existing (fun s => if decide (s = u "7") then Some 7 else Some 2)
      (fun _ => Some (vocab_line (u "the") (u "7") ++ vocab_line (u "the") (u "2")
                      ++ vocab_line (u "of") (u "7")))
      "vocab.csv" = inr word_to_id /\
    word_to_id !! u "the" = Some 1.
Proof.
  destruct (build_vocab_existing_entries
              (fun s => if decide (s = u "7") then Some 7 else Some 2)
              (fun _ => Some (vocab_line (u "the") (u "7") ++ vocab_line (u "the") (u "2")
                              ++ vocab_line (u "of") (u "7")))
              "vocab.csv"
              [(u "the", u "7", 7)] [(u "of", u "7", 7)] (u "the") (u "2") 2)
    as (m & Hm & _ & Hl).
  - repeat constructor; (lia || discriminate).
  - by apply (bool_decide_unpack _).
  - reflexivity.
  - exists m. split; [exact Hm | exact Hl].
Defined.

(** X17. [_build_vocab_existing] accepts no line without a comma: when it
    returns a mapping, the file could be opened and every line of it, an
    empty line included, holds a comma. *)
Theorem build_vocab_existing_needs_comma (py_int : unicode -> option Z)
    (files : string -> option unicode) (filename : string)
    (word_to_id : gmap unicode Z) :
  _build_vocab_existing py_int files filename = inr word_to_id ->
  exists text,
    files filename = Some text /\
    Forall (fun line => 44%N ∈ line) (readlines text).
Proof.
  unfold _build_vocab_existing. intros H.
  destruct (files filename) as [text|]; [|done].
  exists text. split; [done|].
  destruct (lines_fields (readlines text)) as [e|wlist] eqn:Ew; [done|].
  apply lines_fields_inr in Ew as ->.
  destruct (vocab_entries py_int _) as [e|kvs] eqn:E; [done|].
  apply vocab_entries_fields in E.
  rewrite Forall_forall in E. apply Forall_forall. intros line Hin.
  assert (Hline : (2 <= length (split_comma (strip_newline line)))%nat).
  { apply E. apply list_elem_of_fmap. by exists line. }
  apply elem_of_strip_newline.
  destruct (decide (44%N ∈ strip_newline line)) as [|Hnin]; [done|].
  unfold split_comma in Hline. rewrite split_comma_from_field in Hline by done.
  simpl in Hline. lia.
Qed.

Lemma build_vocab_existing_needs_comma_witness :
  exists word_to_id text,
    _build_vocab_existing (fun _ => Some 3)
      (fun _ => Some (vocab_line (u "a") (u "3"))) "vocab.csv" = inr word_to_id /\
    (fun _ : string => Some (vocab_line (u "a") (u "3"))) "vocab.csv" = Some text /\
    Forall (fun line => 44%N ∈ line) (readlines text).
Proof.
  destruct (_build_vocab_existing (fun _ => Some 3)
              (fun _ => Some (vocab_line (u "a") (u "3"))) "vocab.csv")
    as [e|m] eqn:Hm; [vm_compute in Hm; discriminate Hm|].
  destruct (build_vocab_existing_needs_comma _ _ _ m Hm) as (text & Ht & Hc).
  exists m, text. split; [reflexivity|]. split; [exact Ht | exact Hc].
Defined.
